(** * The template registry of trusted-cgi (package [templates])

    A shallow embedding of [templates/template.go]: the [Template] record, the
    descriptor reader [Read], the directory loader [ListDir], the embedded
    catalog [ListEmbedded] with the asset extraction [mustEmbed], the merger
    [List], and the availability checker [Template.IsAvailable].

    Go values are modelled as the code has them:
    - a Go [string] is a sequence of bytes: Rocq's [string] (8-bit characters);
    - a slice is [option (list A)], [None] being the nil slice;
    - a [map[string]V] is [option (gmap string V)], [None] being the nil map;
    - a function that may panic, or wait for ever, returns an [outcome];
    - a function returning [(T, error)] returns a pair whose second component
      is [option error] ([None] is the nil error).

    The Go standard library functions the package calls ([strings], [io/fs],
    [path], [encoding/json], [os], [io/ioutil], [os/exec], [context]) are
    modelled in modules named after their packages, each to the extent the
    package [templates] observes them. *)

From Stdlib Require Import ZArith Ascii String.
From stdpp Require Import gmap strings list fin_maps.

Set Warnings "-register-all".

(** ** Go values *)

(** A slice: nil or a sequence of elements. *)
Definition slice (A : Type) : Type := option (list A).

(** The elements a [for _, x := range s] loop visits (none for a nil slice). *)
Definition elems {A : Type} (s : slice A) : list A :=
  match s with
  | None => []
  | Some l => l
  end.

(** A [map[string]V]: nil or a finite map. *)
Definition gomap (V : Type) : Type := option (gmap string V).

(** The entries a [for k, v := range m] loop visits (none for a nil map). *)
Definition entries {V : Type} (m : gomap V) : gmap string V :=
  match m with
  | None => ∅
  | Some g => g
  end.

(** The double quote character, for string constants that contain it. *)
Definition dq : string := String (ascii_of_nat 34) EmptyString.

(** Error numbers of the operating system that the model distinguishes. *)
Inductive Errno : Type := ENOENT | EACCES | ENOTDIR | EISDIR | EINVAL | EIO.

(** Go [error] values that reach the package. *)
Inductive error : Type :=
  | PathError (Op Path : string) (Err : Errno)   (* *fs.PathError *)
  | Errorf (msg : string) (wrapped : error)      (* fmt.Errorf("...: %w", err) *)
  | SyntaxError (msg : string)                   (* *json.SyntaxError *)
  | UnmarshalTypeError (Value Field : string)    (* *json.UnmarshalTypeError *)
  | ExecError (Name : string)                    (* *exec.Error: cannot be started *)
  | ExitError (code : Z)                         (* *exec.ExitError *)
  | Canceled                                     (* context.Canceled *)
  | DeadlineExceeded.                            (* context.DeadlineExceeded *)

(** The result of a library call that returns a value or an error. *)
Inductive result (A : Type) : Type :=
  | Ok (a : A)
  | Err (e : error).
Arguments Ok {A} a.
Arguments Err {A} e.

(** A run-time panic. *)
Inductive panic : Type :=
  | SliceBoundsOutOfRange (low len : nat)
      (* runtime error: slice bounds out of range [low:len] *)
  | PanicError (e : error).             (* panic(err) *)

(** The outcome of a call: it returns a value, it panics, or it blocks for
    ever (it waits for something that never happens, and never returns). *)
Inductive outcome (A : Type) : Type :=
  | Returns (a : A)
  | Panics (p : panic)
  | Blocks.
Arguments Returns {A} a.
Arguments Panics {A} p.
Arguments Blocks {A}.

#[global] Instance outcome_ret : MRet outcome := @Returns.
#[global] Instance outcome_bind : MBind outcome := λ A B f x,
  match x with
  | Returns a => f a
  | Panics p => Panics p
  | Blocks => Blocks
  end.

(** ** Package [unicode/utf8] *)
Module utf8.

Definition byte_in (lo hi : nat) (c : ascii) : bool :=
  (lo <=? nat_of_ascii c)%nat && (nat_of_ascii c <=? hi)%nat.

Definition cont (c : ascii) : bool := byte_in 128 191 c.

(** The number of bytes of the well-formed encoding that [s] starts with
    ([None]: [s] is empty or starts with an invalid byte, for which
    [DecodeRuneInString] returns [(RuneError, 1)]). The accepted ranges are
    those of the package's [first] and [acceptRanges] tables. *)
Definition runeLen (s : string) : option nat :=
  match s with
  | EmptyString => None
  | String c0 r =>
    if byte_in 0 127 c0 then Some 1%nat
    else match r with
    | EmptyString => None
    | String c1 r1 =>
      if byte_in 194 223 c0 then (if cont c1 then Some 2%nat else None)
      else match r1 with
      | EmptyString => None
      | String c2 r2 =>
        if byte_in 224 239 c0 then
          if (if byte_in 224 224 c0 then byte_in 160 191 c1
              else if byte_in 237 237 c0 then byte_in 128 159 c1
              else cont c1) && cont c2
          then Some 3%nat else None
        else match r2 with
        | EmptyString => None
        | String c3 _ =>
          if byte_in 240 244 c0 then
            if (if byte_in 240 240 c0 then byte_in 144 191 c1
                else if byte_in 244 244 c0 then byte_in 128 143 c1
                else cont c1) && cont c2 && cont c3
            then Some 4%nat else None
          else None
        end
      end
    end
  end.

(** [validFrom k s]: [s] is well formed once its first [k] bytes, the rest
    of an encoding already accepted, are skipped. *)
Fixpoint validFrom (k : nat) (s : string) : bool :=
  match s with
  | EmptyString => true
  | String _ r =>
    match k with
    | S k' => validFrom k' r
    | O =>
      match runeLen s with
      | Some n => validFrom (pred n) r
      | None => false
      end
    end
  end.

(** [utf8.ValidString]. *)
Definition ValidString (s : string) : bool := validFrom 0 s.

(** The encoding of U+FFFD, the replacement character. *)
Definition RuneError : string :=
  String (ascii_of_nat 239) (String (ascii_of_nat 191) (String (ascii_of_nat 189) EmptyString)).

End utf8.

(** ** Package [strings] *)
Module strings.

(** Membership of a byte in an ASCII cutset. *)
Definition inCutset (cutset : string) (c : ascii) : bool :=
  existsb (Ascii.eqb c) (list_ascii_of_string cutset).

Fixpoint TrimLeft (s cutset : string) : string :=
  match s with
  | EmptyString => EmptyString
  | String c r => if inCutset cutset c then TrimLeft r cutset else s
  end.

Fixpoint TrimRight (s cutset : string) : string :=
  match s with
  | EmptyString => EmptyString
  | String c r =>
    match TrimRight r cutset with
    | EmptyString => if inCutset cutset c then EmptyString else String c EmptyString
    | r' => String c r'
    end
  end.

(** [strings.Trim(s, cutset)] for an ASCII cutset: all leading and trailing
    bytes of the cutset are removed (trimLeftASCII after trimRightASCII). *)
Definition Trim (s cutset : string) : string :=
  TrimLeft (TrimRight s cutset) cutset.

(** [strings.HasSuffix]. *)
Definition HasSuffix (s suffix : string) : bool :=
  (String.length suffix <=? String.length s)%nat
  && String.eqb (String.substring (String.length s - String.length suffix)
                                  (String.length suffix) s) suffix.

End strings.

(** The slice expression [s[:n]] of a string, for [n <= len(s)]. *)
Definition slice_to (s : string) (n : nat) : string := String.substring 0 n s.

(** ** Package [path] *)
Module path.

(** [path.Join(name, elem)] as [fs.WalkDir] uses it: [name] is a clean path
    and [elem] the base name of a directory entry. *)
Definition Join (name elem : string) : string :=
  if String.eqb name "." then elem else name +:+ "/" +:+ elem.

(** The elements of a slash-separated path. *)
Fixpoint split (name : string) : list string :=
  match name with
  | EmptyString => [EmptyString]
  | String c r =>
    if Ascii.eqb c "/"%char then EmptyString :: split r
    else match split r with
         | e :: es => String c e :: es
         | [] => [String c EmptyString]
         end
  end.

End path.

(** ** Package [io/fs], over a file tree *)
Module fs.

(** A read-only file tree, as [embed.FS] holds one: a regular file with its
    bytes, or a directory with its entries in the order [ReadDir] lists
    them (sorted by name). *)
Inductive node : Type :=
  | File (content : string)
  | Dir (entries : list (string * node)).

(** [d.IsDir()]. *)
Definition IsDir (d : node) : bool :=
  match d with
  | File _ => false
  | Dir _ => true
  end.

(** [fs.ValidPath]. *)
Definition ValidPath (name : string) : bool :=
  utf8.ValidString name
  && (String.eqb name "."
      || forallb (λ e, negb (String.eqb e EmptyString || String.eqb e "." || String.eqb e ".."))
                 (path.split name)).

(** The entry called [name] of a directory listing. *)
Fixpoint lookupEntry (name : string) (es : list (string * node)) : option node :=
  match es with
  | [] => None
  | (n, d) :: es' => if String.eqb n name then Some d else lookupEntry name es'
  end.

(** The node found by descending from [d] along the elements [elems]. *)
Fixpoint resolve (d : node) (elems : list string) : option node :=
  match elems with
  | [] => Some d
  | e :: elems' =>
    match d with
    | File _ => None
    | Dir es =>
      match lookupEntry e es with
      | Some d' => resolve d' elems'
      | None => None
      end
    end
  end.

(** [reaches d elems d']: the tree [d] holds [d'] at the relative path
    whose elements are [elems]. *)
Inductive reaches : node → list string → node → Prop :=
  | reaches_here d : reaches d [] d
  | reaches_entry es n d1 elems d' :
      (n, d1) ∈ es → reaches d1 elems d' → reaches (Dir es) (n :: elems) d'.

(** The name under which a walk from [.] visits the node at [elems]. *)
Definition walkName (elems : list string) : string := foldl path.Join "." elems.

(** The file system [fs.Sub] returns: [fsys] seen from the directory [dir]
    (the empty list of elements stands for [.]). *)
Record subFS : Type := { fsys : node; dir : list string }.

(** [fs.Sub(fsys, dir)]: only the validity of [dir] is checked here; a [dir]
    that does not exist is found by the first operation on the result. *)
Definition Sub (fsys : node) (dir : string) : result subFS :=
  if negb (ValidPath dir) then Err (PathError "sub" dir EINVAL)
  else if String.eqb dir "." then Ok {| fsys := fsys; dir := [] |}
  else Ok {| fsys := fsys; dir := path.split dir |}.

(** [fs.Stat(sub, ".")]: the root of the sub file system. *)
Definition StatRoot (sub : subFS) : result node :=
  match resolve (fsys sub) (dir sub) with
  | Some d => Ok d
  | None => Err (PathError "open" "." ENOENT)
  end.

(** [fs.ReadFile] of the file a walk is visiting. A file of the tree holds
    its bytes, so only reading a directory fails. *)
Definition ReadFile (d : node) : result string :=
  match d with
  | File content => Ok content
  | Dir _ => Err (PathError "read" "." EISDIR)
  end.

(** What [fs.WalkDir] hands to its callback: the entry being visited, or
    the error of the [Stat] of the root (with a nil entry). A directory of
    the tree can always be listed, so there is no second call that reports
    a [ReadDir] error. *)
Inductive visit : Type :=
  | Entry (d : node)
  | StatFailed (err : error).

Section WalkDir.
Context {S : Type}.
(** The callback, threading the state [S] it closes over. *)
Context (fn : string → visit → S → S * option error).

(** [fs.walkDir]: the callback on the entry, then, for a directory, the
    walk of each entry in listing order, stopping at the first error.
    (The callbacks of this package never return [SkipDir] or [SkipAll].) *)
Fixpoint walkDir (name : string) (d : node) (s : S) {struct d} : S * option error :=
  match fn name (Entry d) s with
  | (s1, Some err) => (s1, Some err)
  | (s1, None) =>
    match d with
    | File _ => (s1, None)
    | Dir es =>
      (fix range (es : list (string * node)) (s : S) {struct es} : S * option error :=
         match es with
         | [] => (s, None)
         | (n1, d1) :: es' =>
           match walkDir (path.Join name n1) d1 s with
           | (s2, Some err) => (s2, Some err)
           | (s2, None) => range es' s2
           end
         end) es s1
    end
  end.

(** The loop of [walkDir] over the entries of a directory, on its own. *)
Fixpoint walkEntries (name : string) (es : list (string * node)) (s : S)
    : S * option error :=
  match es with
  | [] => (s, None)
  | (n1, d1) :: es' =>
    match walkDir (path.Join name n1) d1 s with
    | (s2, Some err) => (s2, Some err)
    | (s2, None) => walkEntries name es' s2
    end
  end.

(** [fs.WalkDir(sub, ".", fn)]. *)
Definition WalkDir (sub : subFS) (s : S) : S * option error :=
  match StatRoot sub with
  | Ok d => walkDir "." d s
  | Err err => fn "." (StatFailed err) s
  end.
End WalkDir.

End fs.

(** ** Package [encoding/json], over parsed documents *)
Module json.

(** A JSON value. The text layer (tokens, escapes, white space) is not
    modelled: a document is the value its text denotes. Numbers are kept to
    the integers; a [Template] has no numeric field of its own. *)
Inductive value : Type :=
  | Null
  | Bool (b : bool)
  | Number (n : Z)
  | Str (s : string)
  | Array (vs : list value)
  | Object (members : list (string * value)).

(** The interfaces [json.Marshaler] and [json.Unmarshaler] of a type, or
    the reflection-driven default for it. [UnmarshalJSON v cur] decodes [v]
    into a variable that holds [cur]. *)
Class Codec (A : Type) : Type := {
  MarshalJSON : A → value;
  UnmarshalJSON : value → A → A * option error
}.

(** The first error met is the one [Decode] reports ([d.saveError]). *)
Definition saveError (saved new : option error) : option error :=
  match saved with
  | Some _ => saved
  | None => new
  end.

(** A string as the encoder writes it and as the decoder delivers it: each
    byte that does not start a well-formed UTF-8 encoding is replaced by
    U+FFFD. [k] counts the bytes still to copy of an encoding already
    accepted. *)
Fixpoint coerce (k : nat) (s : string) : string :=
  match s with
  | EmptyString => EmptyString
  | String c r =>
    match k with
    | S k' => String c (coerce k' r)
    | O =>
      match utf8.runeLen s with
      | Some n => String c (coerce (pred n) r)
      | None => utf8.RuneError +:+ coerce 0 r
      end
    end
  end.

Definition kindOf (v : value) : string :=
  match v with
  | Null => "null"
  | Bool _ => "bool"
  | Number _ => "number"
  | Str _ => "string"
  | Array _ => "array"
  | Object _ => "object"
  end.

(** *** Encoding *)

Definition encodeString (s : string) : value := Str (coerce 0 s).

(** A [[]string]: [null] for the nil slice. *)
Definition encodeStrings (s : slice string) : value :=
  match s with
  | None => Null
  | Some l => Array (encodeString <$> l)
  end.

(** A [[][]string]. *)
Definition encodeStringss (s : slice (slice string)) : value :=
  match s with
  | None => Null
  | Some l => Array (encodeStrings <$> l)
  end.

(** A [map[string]string]: [null] for the nil map, else one member per key
    (the encoder writes them sorted by key; the order of the members of a
    map with distinct written keys does not show after decoding). *)
Definition encodeMap (m : gomap string) : value :=
  match m with
  | None => Null
  | Some g => Object ((λ kv, (coerce 0 kv.1, encodeString kv.2)) <$> map_to_list g)
  end.

(** *** Decoding *)

(** Into a [string]: [null] leaves the variable as it is. *)
Definition decodeString (field : string) (v : value) (cur : string) : string * option error :=
  match v with
  | Str s => (coerce 0 s, None)
  | Null => (cur, None)
  | _ => (cur, Some (UnmarshalTypeError (kindOf v) field))
  end.

(** The elements of an array, each decoded by [dec] into a zero variable
    (the slice decoded into is nil for a document whose keys are distinct;
    for a document that repeats a key the library goes on with the elements
    of the slice at hand, which is not modelled); an element of the wrong
    type keeps the zero value and saves an error. *)
Fixpoint decodeElems {A : Type} (dec : value → A * option error) (vs : list value)
    : list A * option error :=
  match vs with
  | [] => ([], None)
  | v :: vs' =>
    let '(a, e) := dec v in
    let '(l, e') := decodeElems dec vs' in
    (a :: l, saveError e e')
  end.

(** Into a [[]string]: [null] sets the nil slice, an array a slice of its
    length (not nil, also when empty). *)
Definition decodeStrings (field : string) (v : value) (cur : slice string)
    : slice string * option error :=
  match v with
  | Null => (None, None)
  | Array vs =>
    let '(l, e) := decodeElems (λ v, decodeString field v EmptyString) vs in (Some l, e)
  | _ => (cur, Some (UnmarshalTypeError (kindOf v) field))
  end.

(** Into a [[][]string]. *)
Definition decodeStringss (field : string) (v : value) (cur : slice (slice string))
    : slice (slice string) * option error :=
  match v with
  | Null => (None, None)
  | Array vs =>
    let '(l, e) := decodeElems (λ v, decodeStrings field v None) vs in (Some l, e)
  | _ => (cur, Some (UnmarshalTypeError (kindOf v) field))
  end.

(** The members of an object stored into a map one after the other: a
    later member replaces an earlier one with the same key. *)
Fixpoint decodeMembers (field : string) (ms : list (string * value)) (g : gmap string string)
    : gmap string string * option error :=
  match ms with
  | [] => (g, None)
  | (k, v) :: ms' =>
    let '(s, e) := decodeString field v EmptyString in
    let '(g', e') := decodeMembers field ms' (<[coerce 0 k := s]> g) in
    (g', saveError e e')
  end.

(** Into a [map[string]string]: [null] sets the nil map; an object is
    stored into the map at hand, or into a new one when that is nil. *)
Definition decodeMap (field : string) (v : value) (cur : gomap string)
    : gomap string * option error :=
  match v with
  | Null => (None, None)
  | Object ms =>
    let '(g, e) := decodeMembers field ms (entries cur) in (Some g, e)
  | _ => (cur, Some (UnmarshalTypeError (kindOf v) field))
  end.

(** The folding of a key under which it is compared with the name of a
    struct field when no name is equal to it: ASCII letters in upper case,
    and the two letters outside ASCII whose simple case folding is an ASCII
    letter (U+017F to [S], U+212A to [K]). Other bytes are kept; no name
    of a field of this package is outside ASCII. *)
Fixpoint foldName (s : string) : string :=
  match s with
  | EmptyString => EmptyString
  | String c r =>
    let n := nat_of_ascii c in
    if (97 <=? n)%nat && (n <=? 122)%nat then String (ascii_of_nat (n - 32)) (foldName r)
    else match r with
    | String c1 r1 =>
      if (n =? 197)%nat && (nat_of_ascii c1 =? 191)%nat then String "S"%char (foldName r1)
      else match r1 with
      | String c2 r2 =>
        if (n =? 226)%nat && (nat_of_ascii c1 =? 132)%nat && (nat_of_ascii c2 =? 170)%nat
        then String "K"%char (foldName r2)
        else String c (foldName r)
      | EmptyString => String c (foldName r)
      end
    | EmptyString => String c EmptyString
    end
  end.

(** The key [key] of an object selects the field named [name]. (Every
    field of [Template] has a name of its own, also after folding, so at
    most one field is selected.) *)
Definition selects (key name : string) : bool :=
  String.eqb (coerce 0 key) name || String.eqb (foldName (coerce 0 key)) (foldName name).

(** What an opened file delivers to a [Decoder]: the text of a JSON value
    (followed by anything), or an error, of the read or of the scan of
    bytes that are no JSON text. *)
Inductive input : Type :=
  | Text (v : value)
  | Bad (err : error).

(** [json.NewDecoder(f).Decode(&x)], [x] holding [cur]: on an error of the
    read or the scan nothing is stored. *)
Definition Decode {A : Type} `{!Codec A} (f : input) (cur : A) : A * option error :=
  match f with
  | Text v => UnmarshalJSON v cur
  | Bad err => (cur, Some err)
  end.

End json.

(** ** Package [os], [io/ioutil] and [path/filepath]: the host file system *)
Module os.

(** What [ioutil.ReadDir] tells of a directory entry. *)
Record FileInfo : Type := { Name : string; IsDir : bool }.

(** The host file system as the package reads it. [ReadDir dir] is the
    listing of [dir] (sorted by name) or the error of opening or reading
    it; [Open name] is the input the opened file delivers or the error of
    opening it. Any behaviour of the host is one such pair of functions. *)
Record FileSystem : Type := {
  ReadDir : string → result (list FileInfo);
  Open : string → result json.input
}.

(** [os.IsNotExist]. *)
Definition IsNotExist (err : error) : bool :=
  match err with
  | PathError _ _ ENOENT => true
  | _ => false
  end.

(** One host among them: a directory tree, in which paths are looked up as
    the kernel does it (no links, no permissions; the root is also the
    working directory). [walk up d elems] follows the elements of a path
    from the directory [d], [up] being the directories above it: an empty
    element and [.] stay, [..] goes up (the root is above itself), a name
    goes to the entry of that name. A name that is not in the directory
    gives [ENOENT]; any element below a regular file gives [ENOTDIR]. *)
Fixpoint walk (up : list fs.node) (d : fs.node) (elems : list string) : Errno + fs.node :=
  match elems with
  | [] => inr d
  | e :: elems' =>
    match d with
    | fs.File _ => inl ENOTDIR
    | fs.Dir es =>
      if String.eqb e EmptyString || String.eqb e "." then walk up d elems'
      else if String.eqb e ".." then
        match up with
        | [] => walk [] d elems'
        | parent :: up' => walk up' parent elems'
        end
      else match fs.lookupEntry e es with
           | Some d' => walk (d :: up) d' elems'
           | None => inl ENOENT
           end
    end
  end.

(** The node a path names, or the error number of its lookup; the empty
    path names nothing. *)
Definition lookup (root : fs.node) (name : string) : Errno + fs.node :=
  if String.eqb name EmptyString then inl ENOENT
  else walk [] root (path.split name).

(** The host whose files are those of the tree [root], [parse] telling what
    a decoder finds in the bytes of a file. Reading a path as a directory
    fails in [open] when the lookup fails, and in the reading when the path
    names a regular file; a directory can be opened, and not be read. *)
Definition treeFS (root : fs.node) (parse : string → json.input) : FileSystem :=
  {| ReadDir := λ dir,
       match lookup root dir with
       | inl errno => Err (PathError "open" dir errno)
       | inr (fs.File _) => Err (PathError "readdirent" dir ENOTDIR)
       | inr (fs.Dir es) => Ok ((λ nd, {| Name := nd.1; IsDir := fs.IsDir nd.2 |}) <$> es)
       end;
     Open := λ name,
       match lookup root name with
       | inl errno => Err (PathError "open" name errno)
       | inr (fs.File content) => Ok (parse content)
       | inr (fs.Dir _) => Ok (json.Bad (PathError "read" name EISDIR))
       end |}.

End os.

Module filepath.

(** [filepath.Join(dir, name)] for a [dir] that is not empty and a path in
    its shortest form (as [filepath.Clean] leaves it, and not [/]): the two
    with a slash between them. For another [dir] the library cleans the
    joined path, which is not modelled; the file system is any function of
    the path it is asked for. *)
Definition Join (dir name : string) : string := dir +:+ "/" +:+ name.

End filepath.

(** ** Package [types] *)
Module types.

(** Modelled from the spec: [types.Manifest] is declared outside the source
    files at hand. The fields are the ones the spec lists (display name,
    long-form description, run command, time limit, maximum payload size,
    output header mapping), under the names the catalog literal of
    [ListEmbedded] gives them; [TimeLimit] counts nanoseconds. *)
Record Manifest : Type := {
  Name : string;
  Description : string;
  Run : slice string;
  TimeLimit : Z;
  MaximumPayload : Z;
  OutputHeaders : gomap string
}.

(** The zero value. *)
Definition zero : Manifest :=
  {| Name := EmptyString; Description := EmptyString; Run := None;
     TimeLimit := 0; MaximumPayload := 0; OutputHeaders := None |}.

End types.

(** ** Package [time] *)
Module time.
Definition Second : Z := 1000000000.
End time.

(** ** Package [context] *)
Module context.

(** A context, by the instant at which its [Done] channel is closed:
    never, at a cancellation, or at a deadline. Instants are counted in
    ticks of a discrete clock. (The nil context, which
    [exec.CommandContext] refuses with a panic, is not among them.) *)
Inductive Context : Type :=
  | Background
  | WithCancel (canceledAt : nat)
  | WithDeadline (deadline : nat).

(** The instant at which the context becomes done, if ever. *)
Definition DoneAt (ctx : Context) : option nat :=
  match ctx with
  | Background => None
  | WithCancel t => Some t
  | WithDeadline t => Some t
  end.

(** The context is done at the instant [now]. *)
Definition Done (ctx : Context) (now : nat) : bool :=
  match DoneAt ctx with
  | None => false
  | Some t => (t <=? now)%nat
  end.

(** [ctx.Err()] of a context that is done. *)
Definition Err (ctx : Context) : error :=
  match ctx with
  | WithDeadline _ => DeadlineExceeded
  | _ => Canceled
  end.

End context.

(** ** Package [os/exec]: the host's programs *)
Module exec.

(** A child process: how long it runs, [None] when it never exits unless
    it is killed, and the status it exits with when it does. *)
Record Process : Type := { duration : option nat; exitCode : Z }.

(** The host: what starting the program [name] with the arguments [args]
    at the instant [now] gives, [None] when it cannot be started (no such
    program, no permission). Any state of the host is one such function. *)
Definition Host : Type := string → list string → nat → option Process.

(** [exec.Cmd]. *)
Record Cmd : Type := { ctx : context.Context; Path : string; Args : list string }.

(** [exec.CommandContext(ctx, name, arg...)]. *)
Definition CommandContext (ctx : context.Context) (name : string) (arg : list string) : Cmd :=
  {| ctx := ctx; Path := name; Args := arg |}.

(** What [Wait] returns for a child that has exited by itself. *)
Definition exitError (p : Process) : option error :=
  if (exitCode p =? 0)%Z then None else Some (ExitError (exitCode p)).

(** [cmd.Run()] at the instant [now]: what it returns and the instant at
    which it returns. [Start] fails at once when the context is already
    done, and when the program cannot be started. A child that is still
    running when the context becomes done is killed, and [Run] returns an
    error at that instant; a child that exits at the very instant the
    context becomes done counts as still running. Otherwise [Run] returns
    when the child exits, with an [ExitError] unless the status is 0; when
    the child never exits and the context never becomes done, [Run] waits
    for ever. *)
Definition Run (host : Host) (cmd : Cmd) (now : nat) : outcome (option error) * nat :=
  if context.Done (ctx cmd) now then (Returns (Some (context.Err (ctx cmd))), now)
  else match host (Path cmd) (Args cmd) now with
  | None => (Returns (Some (ExecError (Path cmd))), now)
  | Some p =>
    match duration p, context.DoneAt (ctx cmd) with
    | Some d, Some t =>
      if (t <=? now + d)%nat then (Returns (Some (ExitError (-1))), t)
      else (Returns (exitError p), now + d)
    | Some d, None => (Returns (exitError p), now + d)
    | None, Some t => (Returns (Some (ExitError (-1))), t)
    | None, None => (Blocks, now)
    end
  end.

End exec.

(** ** Package [internal] *)
Module internal.

(** Modelled from the spec: [internal.SetFlags] is declared outside the
    source files at hand. The spec gives the execution of a probe no
    behaviour beyond running the command as a child process, so the call
    leaves every field of the command that [Run] reads as it is. *)
Definition SetFlags (cmd : exec.Cmd) : exec.Cmd := cmd.

End internal.
(** ** The text constants of the package *)

(** The description every manifest of the embedded catalog carries (the
    source repeats the literal in each entry). *)
Definition usage : string :=
  "### Usage

    curl --data-binary '{" +:+ dq +:+ "name" +:+ dq +:+ ": " +:+ dq +:+ "reddec" +:+ dq +:+ "}' -H 'Content-Type: application/json' " +:+ dq +:+ "http://example.com/a/xyz" +:+ dq +:+ "

Replace url to the real
".

Definition nodeJsScript : string :=
  "
async function run(request) {
     return [" +:+ dq +:+ "hello" +:+ dq +:+ ", " +:+ dq +:+ "world" +:+ dq +:+ "];
}

let input = '';
process.stdin.resume();
process.stdin.setEncoding('utf8');
process.stdin.on('data', function (chunk) {
    input += chunk;
});
process.stdin.on('end', function () {
	run(JSON.parse(input)).catch((e)=> {
		return {" +:+ dq +:+ "error" +:+ dq +:+ ": e + ''};
	}).then((response)=> {
		process.stdout.write(JSON.stringify(response));
	})
});
".

Definition nodeJsMake : string :=
  "
install:
	npm install .
".

Definition nodeJsManifest : string :=
  "{
  " +:+ dq +:+ "name" +:+ dq +:+ ": " +:+ dq +:+ dq +:+ ",
  " +:+ dq +:+ "version" +:+ dq +:+ ": " +:+ dq +:+ "1.0.0" +:+ dq +:+ ",
  " +:+ dq +:+ "description" +:+ dq +:+ ": " +:+ dq +:+ dq +:+ ",
  " +:+ dq +:+ "main" +:+ dq +:+ ": " +:+ dq +:+ "index.js" +:+ dq +:+ ",
  " +:+ dq +:+ "scripts" +:+ dq +:+ ": {
    " +:+ dq +:+ "test" +:+ dq +:+ ": " +:+ dq +:+ "echo \" +:+ dq +:+ "Error: no test specified\" +:+ dq +:+ " && exit 1" +:+ dq +:+ "
  },
  " +:+ dq +:+ "author" +:+ dq +:+ ": " +:+ dq +:+ dq +:+ ",
  " +:+ dq +:+ "license" +:+ dq +:+ ": " +:+ dq +:+ dq +:+ ",
  " +:+ dq +:+ "dependencies" +:+ dq +:+ ": {
    " +:+ dq +:+ "axios" +:+ dq +:+ ": " +:+ dq +:+ "^0.19.2" +:+ dq +:+ "
  }
}".

Definition phpScript : string :=
  "
<?php
$request = json_decode(stream_get_contents(STDIN));

$response = array(" +:+ dq +:+ "hello" +:+ dq +:+ ", " +:+ dq +:+ "world" +:+ dq +:+ ");

echo json_encode($response, JSON_PRETTY_PRINT);
?>".

Definition nimScript : string :=
  "
import json

let request = stdin.readAll().parseJson()

echo pretty(%*[" +:+ dq +:+ "hello" +:+ dq +:+ ", " +:+ dq +:+ "world" +:+ dq +:+ "])
".

Definition nimbleManifest : string :=
  "
version       = " +:+ dq +:+ "0.1.0" +:+ dq +:+ "
author        = " +:+ dq +:+ dq +:+ "
description   = " +:+ dq +:+ dq +:+ "
license       = " +:+ dq +:+ dq +:+ "
srcDir        = " +:+ dq +:+ "src" +:+ dq +:+ "
bin           = @[" +:+ dq +:+ "lambda" +:+ dq +:+ "]

# Dependencies
requires " +:+ dq +:+ "nim >= 1.2.0" +:+ dq +:+ "
".

Definition nimMake : string :=
  "
build:
	nimble build
	mkdir -p bin
	mv -f lambda bin/
".

(** ** Package [templates] *)

Record Template : Type := {
  Description : string;
  Manifest : types.Manifest;     (* manifest to copy *)
  PostClone : string;            (* action (make target) to invoke after clone *)
  Check : slice (slice string);  (* check availability (one line - one check) *)
  Files : gomap string
}.

(** The value of [&Template{}]. *)
Definition zeroTemplate : Template :=
  {| Description := EmptyString; Manifest := types.zero; PostClone := EmptyString;
     Check := None; Files := None |}.

(** What [Read] returns: [(nil, err)] when the file cannot be opened, else
    the template decoded into together with the error of the decoding. *)
Inductive ReadResult : Type :=
  | OpenFailed (err : error)
  | Decoded (t : Template) (err : option error).

Section templates.

(** The compiled-in asset tree ([//go:embed assets/**]). *)
Context (assets : fs.node).
(** How a manifest is written to and read from JSON (package [types]). *)
Context `{!json.Codec types.Manifest}.
(** The host file system. *)
Context (disk : os.FileSystem).

(** *** The descriptor as JSON, by the struct tags of [Template] *)

(** [json.Marshal(t)]: [post_clone], [check] and [files] are written unless
    empty ([omitempty]: the empty string, a slice or map of length 0). *)
Definition marshalTemplate (t : Template) : json.value :=
  json.Object (
    [("description", json.encodeString (Description t));
     ("manifest", json.MarshalJSON (Manifest t))]
    ++ (if String.eqb (PostClone t) EmptyString then []
        else [("post_clone", json.encodeString (PostClone t))])
    ++ (if (length (elems (Check t)) =? 0)%nat then []
        else [("check", json.encodeStringss (Check t))])
    ++ (if (size (entries (Files t)) =? 0)%nat then []
        else [("files", json.encodeMap (Files t))])).

(** One member of the object, stored into the field its key selects; a
    key that selects no field is skipped. *)
Definition unmarshalField (key : string) (v : json.value) (t : Template)
    : Template * option error :=
  if json.selects key "description" then
    let '(x, e) := json.decodeString "description" v (Description t) in
    ({| Description := x; Manifest := Manifest t; PostClone := PostClone t;
        Check := Check t; Files := Files t |}, e)
  else if json.selects key "manifest" then
    let '(x, e) := json.UnmarshalJSON v (Manifest t) in
    ({| Description := Description t; Manifest := x; PostClone := PostClone t;
        Check := Check t; Files := Files t |}, e)
  else if json.selects key "post_clone" then
    let '(x, e) := json.decodeString "post_clone" v (PostClone t) in
    ({| Description := Description t; Manifest := Manifest t; PostClone := x;
        Check := Check t; Files := Files t |}, e)
  else if json.selects key "check" then
    let '(x, e) := json.decodeStringss "check" v (Check t) in
    ({| Description := Description t; Manifest := Manifest t; PostClone := PostClone t;
        Check := x; Files := Files t |}, e)
  else if json.selects key "files" then
    let '(x, e) := json.decodeMap "files" v (Files t) in
    ({| Description := Description t; Manifest := Manifest t; PostClone := PostClone t;
        Check := Check t; Files := x |}, e)
  else (t, None).

(** The members of the object in the order of the text. *)
Fixpoint unmarshalFields (ms : list (string * json.value)) (t : Template)
    : Template * option error :=
  match ms with
  | [] => (t, None)
  | (key, v) :: ms' =>
    let '(t1, e) := unmarshalField key v t in
    let '(t2, e') := unmarshalFields ms' t1 in
    (t2, json.saveError e e')
  end.

(** Decoding into a [Template]: an object field by field, [null] nothing. *)
Definition unmarshalTemplate (v : json.value) (t : Template) : Template * option error :=
  match v with
  | json.Object ms => unmarshalFields ms t
  | json.Null => (t, None)
  | _ => (t, Some (UnmarshalTypeError (json.kindOf v) "Template"))
  end.

#[local] Instance Template_codec : json.Codec Template :=
  {| json.MarshalJSON := marshalTemplate; json.UnmarshalJSON := unmarshalTemplate |}.

(** *** [Read] *)

Definition Read (filename : string) : ReadResult :=
  match os.Open disk filename with
  | Err err => OpenFailed err
  | Ok f =>
    let t := zeroTemplate in
    let '(t, err) := json.Decode f t in
    Decoded t err
  end.

(** *** [ListDir] *)

Definition suffix : string := ".json".

(** The loop over the directory entries, [ans] being the map filled so far. *)
Fixpoint ListDir_range (dir : string) (items : list os.FileInfo) (ans : gmap string Template)
    : gomap Template * option error :=
  match items with
  | [] => (Some ans, None)
  | item :: items' =>
    let name := os.Name item in
    if os.IsDir item || negb (strings.HasSuffix name suffix) then
      ListDir_range dir items' ans
    else
      let name := slice_to name (String.length name - String.length suffix) in
      match Read (filepath.Join dir (os.Name item)) with
      | OpenFailed err => (None, Some err)
      | Decoded _ (Some err) => (None, Some err)
      | Decoded t None => ListDir_range dir items' (<[name := t]> ans)
      end
  end.

Definition ListDir (dir : string) : gomap Template * option error :=
  match os.ReadDir disk dir with
  | Err err =>
    if os.IsNotExist err then (Some ∅, None)
    else (None, Some err)
  | Ok items => ListDir_range dir items ∅
  end.

(** *** [mustEmbed] *)

(** The callback of the walk; [out] is the map it closes over. *)
Definition mustEmbed_fn (asset : string) (d : fs.visit) (out : gmap string string)
    : gmap string string * option error :=
  match d with
  | fs.StatFailed err => (out, Some err)
  | fs.Entry d =>
    if fs.IsDir d then (out, None)
    else match fs.ReadFile d with
    | Err err => (out, Some (Errorf ("read " +:+ asset) err))
    | Ok content =>
      let p := strings.Trim asset "/." in
      (<[p := content]> out, None)
    end
  end.

Definition mustEmbed (root : string) : outcome (gmap string string) :=
  match fs.Sub assets root with
  | Err err => Panics (PanicError err)
  | Ok sub =>
    match fs.WalkDir mustEmbed_fn sub ∅ with
    | (_, Some err) => Panics (PanicError err)
    | (out, None) => Returns out
    end
  end.

(** *** [ListEmbedded] *)

Definition jsonHeaders : gomap string :=
  Some {[ "Content-Type" := "application/json" ]}.

Definition ListEmbedded : outcome (gmap string Template) :=
  python ← mustEmbed "assets/python";
  mret (
    <["Python" := {|
       Description := "Python basic function";
       Check := Some [Some ["which"; "make"];
                      Some ["which"; "python3"];
                      Some ["python3"; "-m"; "venv"; "--help"]];
       Files := Some python;
       Manifest := {|
         types.Name := "Example Python Function";
         types.Description := usage;
         types.Run := Some ["./venv/bin/python3"; "app.py"];
         types.TimeLimit := time.Second;
         types.MaximumPayload := 8192;
         types.OutputHeaders := jsonHeaders |};
       PostClone := "install" |}]> (
    <["Node JS" := {|
       Description := "Node JS basic function";
       Check := Some [Some ["which"; "make"];
                      Some ["which"; "node"];
                      Some ["which"; "npm"]];
       Files := Some (<["app.js" := nodeJsScript]> (
                      <["package.json" := nodeJsManifest]> (
                      <["Makefile" := nodeJsMake]> (
                      <[".cgiignore" := "node_modules"]> ∅))));
       Manifest := {|
         types.Name := "Example NodeJS Function";
         types.Description := usage;
         types.Run := Some ["node"; "app.js"];
         types.TimeLimit := time.Second;
         types.MaximumPayload := 8192;
         types.OutputHeaders := jsonHeaders |};
       PostClone := "install" |}]> (
    <["PHP" := {|
       Description := "PHP basic function";
       Manifest := {|
         types.Name := "Example PHP Function";
         types.Description := usage;
         types.Run := Some ["php"; "app.php"];
         types.TimeLimit := time.Second;
         types.MaximumPayload := 8192;
         types.OutputHeaders := jsonHeaders |};
       PostClone := EmptyString;
       Check := Some [Some ["which"; "php"]];
       Files := Some (<["app.php" := phpScript]> ∅) |}]> (
    <["Nim" := {|
       Description := "Nim lang basic function";
       Manifest := {|
         types.Name := "Fast python-like function";
         types.Description := usage;
         types.Run := Some ["./bin/lambda"];
         types.TimeLimit := time.Second;
         types.MaximumPayload := 8192;
         types.OutputHeaders := jsonHeaders |};
       PostClone := "build";
       Check := Some [Some ["which"; "make"];
                      Some ["which"; "nim"];
                      Some ["which"; "nimble"]];
       Files := Some (<["src/lambda.nim" := nimScript]> (
                      <["lambda.nimble" := nimbleManifest]> (
                      <["Makefile" := nimMake]> ∅))) |}]> ∅)))).

(** *** [List]: embedded and external templates *)

(** [for name, t := range ext { merged[name] = t }]. *)
Definition List_range (ext merged : gmap string Template) : gmap string Template :=
  map_fold (λ name t merged, <[name := t]> merged) merged ext.

Definition List (templatesDir : string) : outcome (gomap Template * option error) :=
  merged ← ListEmbedded;
  match ListDir templatesDir with
  | (_, Some err) => mret (None, Some err)
  | (ext, None) => mret (Some (List_range (entries ext) merged), None)
  end.

End templates.

(** *** [Template.IsAvailable] *)

(** The clock and the commands run so far, in the order of their [Run]. *)
Record World : Type := { now : nat; ran : list exec.Cmd }.

Section IsAvailable.

(** The programs of the host. *)
Context (host : exec.Host).

(** [cmd.Run()] in the world [w]. The command counts as run from the
    moment it is started; while [Run] waits for ever the clock of the world
    stays at the instant of the start. *)
Definition run (cmd : exec.Cmd) (w : World) : outcome (option error) * World :=
  let '(r, t) := exec.Run host cmd (now w) in
  (r, {| now := t; ran := ran w ++ [cmd] |}).

(** The loop over the checks that are left. The Go specification leaves
    open which of [check[0]] and [check[1:]] is evaluated first; the
    compiler evaluates the slice expression first, so that an empty
    argument vector panics on its bounds. *)
Fixpoint IsAvailable_range (ctx : context.Context) (checks : list (slice string)) (w : World)
    : outcome bool * World :=
  match checks with
  | [] => (Returns true, w)
  | check :: checks' =>
    match elems check with
    | [] => (Panics (SliceBoundsOutOfRange 1 0), w)   (* check[1:] *)
    | name :: args =>
      let cmd := exec.CommandContext ctx name args in
      let cmd := internal.SetFlags cmd in
      match run cmd w with
      | (Returns (Some _), w') => (Returns false, w')
      | (Returns None, w') => IsAvailable_range ctx checks' w'
      | (Panics p, w') => (Panics p, w')
      | (Blocks, w') => (Blocks, w')
      end
    end
  end.

Definition IsAvailable (t : Template) (ctx : context.Context) (w : World)
    : outcome bool * World :=
  IsAvailable_range ctx (elems (Check t)) w.

End IsAvailable.

(** ** Vocabulary of the statements *)

(** The command the loop of [IsAvailable] builds from a check. *)
Definition commandOf (ctx : context.Context) (check : slice string) : list exec.Cmd :=
  match elems check with
  | [] => []
  | name :: args => [exec.CommandContext ctx name args]
  end.

(** The commands of a list of checks, in order. *)
Definition commandsOf (ctx : context.Context) (checks : list (slice string)) : list exec.Cmd :=
  checks ≫= commandOf ctx.

(** [passes host ctx checks w w']: run one after the other from the world
    [w], every probe of [checks] succeeds ([Run] returns nil), and the last
    one leaves the world [w']. *)
Inductive passes (host : exec.Host) (ctx : context.Context)
    : list (slice string) → World → World → Prop :=
  | passes_nil w : passes host ctx [] w w
  | passes_cons check name args checks w w1 w2 :
      elems check = name :: args →
      run host (exec.CommandContext ctx name args) w = (Returns None, w1) →
      passes host ctx checks w1 w2 →
      passes host ctx (check :: checks) w w2.

(** The last byte of a string. *)
Fixpoint lastByte (s : string) : option ascii :=
  match s with
  | EmptyString => None
  | String c r =>
    match lastByte r with
    | None => Some c
    | Some l => Some l
    end
  end.





(** A directory entry [ListDir] reads as a descriptor: not a directory, and
    named with the suffix [.json]. *)
Definition qualifies (item : os.FileInfo) : bool :=
  negb (os.IsDir item) && strings.HasSuffix (os.Name item) suffix.

(** [Read] failed: the file could not be opened, or not be decoded. *)
Definition failed (r : ReadResult) : bool :=
  match r with
  | Decoded _ None => false
  | _ => true
  end.

(** Loading the directory [dir] fails: it cannot be read, for another reason
    than not to exist, or one of its descriptors cannot be read. *)
Definition loadFails `{!json.Codec types.Manifest} (disk : os.FileSystem) (dir : string) : Prop :=
  (∃ err, os.ReadDir disk dir = Err err ∧ os.IsNotExist err = false)
  ∨ (∃ items item, os.ReadDir disk dir = Ok items ∧ item ∈ items ∧ qualifies item = true
       ∧ failed (Read disk (filepath.Join dir (os.Name item))) = true).

(** Every string of the template is well-formed UTF-8. *)
Definition validStrings (t : Template) : Prop :=
  utf8.ValidString (Description t) = true
  ∧ utf8.ValidString (PostClone t) = true
  ∧ (∀ check arg, check ∈ elems (Check t) → arg ∈ elems check → utf8.ValidString arg = true)
  ∧ (∀ k v, entries (Files t) !! k = Some v →
       utf8.ValidString k = true ∧ utf8.ValidString v = true).

(** What a walk with the callback of [mustEmbed] does to the map: it never
    fails; every entry of the result was there before or is a file of the
    tree under its trimmed name; every file of the tree has its trimmed name
    as a key, and no key is lost. *)
Definition walk_spec (name : string) (d : fs.node) (s s' : gmap string string) : Prop :=
  (∀ k v, s' !! k = Some v →
     s !! k = Some v
     ∨ ∃ elems, fs.reaches d elems (fs.File v)
                ∧ k = strings.Trim (foldl path.Join name elems) "/.")
  ∧ (∀ elems content, fs.reaches d elems (fs.File content) →
       is_Some (s' !! strings.Trim (foldl path.Join name elems) "/."))
  ∧ (∀ k, is_Some (s !! k) → is_Some (s' !! k)).

(** ** Example environments *)

(** Modelled from the spec: the JSON form of a manifest, which package
    [types] declares outside the source files at hand: an object with one
    member for each field the spec lists. It serves to run the definitions
    on examples. *)
Definition exampleMarshalManifest (m : types.Manifest) : json.value :=
  json.Object [
    ("name", json.encodeString (types.Name m));
    ("description", json.encodeString (types.Description m));
    ("run", json.encodeStrings (types.Run m));
    ("time_limit", json.Number (types.TimeLimit m));
    ("maximum_payload", json.Number (types.MaximumPayload m));
    ("output_headers", json.encodeMap (types.OutputHeaders m))].

Definition exampleUnmarshalNumber (field : string) (v : json.value) (cur : Z) : Z * option error :=
  match v with
  | json.Number n => (n, None)
  | json.Null => (cur, None)
  | _ => (cur, Some (UnmarshalTypeError (json.kindOf v) field))
  end.

Definition exampleUnmarshalManifestField (key : string) (v : json.value) (m : types.Manifest)
    : types.Manifest * option error :=
  if json.selects key "name" then
    let '(x, e) := json.decodeString "name" v (types.Name m) in
    ({| types.Name := x; types.Description := types.Description m; types.Run := types.Run m;
        types.TimeLimit := types.TimeLimit m; types.MaximumPayload := types.MaximumPayload m;
        types.OutputHeaders := types.OutputHeaders m |}, e)
  else if json.selects key "description" then
    let '(x, e) := json.decodeString "description" v (types.Description m) in
    ({| types.Name := types.Name m; types.Description := x; types.Run := types.Run m;
        types.TimeLimit := types.TimeLimit m; types.MaximumPayload := types.MaximumPayload m;
        types.OutputHeaders := types.OutputHeaders m |}, e)
  else if json.selects key "run" then
    let '(x, e) := json.decodeStrings "run" v (types.Run m) in
    ({| types.Name := types.Name m; types.Description := types.Description m; types.Run := x;
        types.TimeLimit := types.TimeLimit m; types.MaximumPayload := types.MaximumPayload m;
        types.OutputHeaders := types.OutputHeaders m |}, e)
  else if json.selects key "time_limit" then
    let '(x, e) := exampleUnmarshalNumber "time_limit" v (types.TimeLimit m) in
    ({| types.Name := types.Name m; types.Description := types.Description m;
        types.Run := types.Run m; types.TimeLimit := x;
        types.MaximumPayload := types.MaximumPayload m;
        types.OutputHeaders := types.OutputHeaders m |}, e)
  else if json.selects key "maximum_payload" then
    let '(x, e) := exampleUnmarshalNumber "maximum_payload" v (types.MaximumPayload m) in
    ({| types.Name := types.Name m; types.Description := types.Description m;
        types.Run := types.Run m; types.TimeLimit := types.TimeLimit m;
        types.MaximumPayload := x; types.OutputHeaders := types.OutputHeaders m |}, e)
  else if json.selects key "output_headers" then
    let '(x, e) := json.decodeMap "output_headers" v (types.OutputHeaders m) in
    ({| types.Name := types.Name m; types.Description := types.Description m;
        types.Run := types.Run m; types.TimeLimit := types.TimeLimit m;
        types.MaximumPayload := types.MaximumPayload m; types.OutputHeaders := x |}, e)
  else (m, None).

Fixpoint exampleUnmarshalManifestFields (ms : list (string * json.value)) (m : types.Manifest)
    : types.Manifest * option error :=
  match ms with
  | [] => (m, None)
  | (key, v) :: ms' =>
    let '(m1, e) := exampleUnmarshalManifestField key v m in
    let '(m2, e') := exampleUnmarshalManifestFields ms' m1 in
    (m2, json.saveError e e')
  end.

Definition exampleUnmarshalManifest (v : json.value) (m : types.Manifest)
    : types.Manifest * option error :=
  match v with
  | json.Object ms => exampleUnmarshalManifestFields ms m
  | json.Null => (m, None)
  | _ => (m, Some (UnmarshalTypeError (json.kindOf v) "Manifest"))
  end.

Definition exampleCodec : json.Codec types.Manifest :=
  {| json.MarshalJSON := exampleMarshalManifest;
     json.UnmarshalJSON := exampleUnmarshalManifest |}.

(** An asset tree with the root the catalog embeds. *)
Definition exampleAssets : fs.node :=
  fs.Dir [("assets", fs.Dir [("python", fs.Dir [
    ("Makefile", fs.File "install:");
    ("app.py", fs.File "import sys");
    ("requirements.txt", fs.File EmptyString)])])].

(** The embedded catalog over [exampleAssets]. *)
Definition exampleEmbedded : gmap string Template :=
  match ListEmbedded exampleAssets with
  | Returns emb => emb
  | _ => ∅
  end.


(** A host on which [plain] is a regular file, and nothing else exists. *)
Definition plainTree : fs.node := fs.Dir [("plain", fs.File "{}")].

Definition plainDisk : os.FileSystem :=
  os.treeFS plainTree (λ _, json.Text (json.Object [])).

(** A template an override directory may hold under the name [Python]: no
    check, one file. *)
Definition overridePython : Template :=
  {| Description := "Python from disk"; Manifest := types.zero; PostClone := "setup";
     Check := None; Files := Some {[ "main.py" := "print(1)" ]} |}.

(** A host file system: [/etc/templates] holds the descriptor
    [Python.json], a directory and a file that is no descriptor;
    [/srv/broken] holds a descriptor that is no JSON text; [/root/secret]
    cannot be read; nothing else exists. *)
Definition exampleDisk : os.FileSystem :=
  {| os.ReadDir := λ dir,
       if String.eqb dir "/etc/templates" then
         Ok [ {| os.Name := "Makefile"; os.IsDir := false |};
              {| os.Name := "Python.json"; os.IsDir := false |};
              {| os.Name := "old.json"; os.IsDir := true |} ]
       else if String.eqb dir "/srv/broken" then
         Ok [ {| os.Name := "bad.json"; os.IsDir := false |} ]
       else if String.eqb dir "/root/secret" then Err (PathError "open" dir EACCES)
       else Err (PathError "open" dir ENOENT);
     os.Open := λ name,
       if String.eqb name "/etc/templates/Python.json" then
         Ok (json.Text (marshalTemplate (H := exampleCodec) overridePython))
       else if String.eqb name "/srv/broken/bad.json" then
         Ok (json.Bad (SyntaxError "invalid character"))
       else Err (PathError "open" name ENOENT) |}.

(** A host file system on which every file that is opened delivers the
    text [json.Marshal] writes for [t]. *)
Definition descriptorDisk `{!json.Codec types.Manifest} (t : Template) : os.FileSystem :=
  {| os.ReadDir := λ dir, Err (PathError "open" dir ENOENT);
     os.Open := λ _, Ok (json.Text (marshalTemplate t)) |}.

(** A template whose description is one byte that is no UTF-8 text. *)
Definition latin1 : Template :=
  {| Description := String (ascii_of_nat 255) EmptyString; Manifest := types.zero;
     PostClone := EmptyString; Check := None; Files := None |}.

(** A host on which [which make] succeeds after 2 ticks, [which python3]
    exits with status 1 after 3 ticks, and no other program exists. *)
Definition exampleHost : exec.Host := λ name args _,
  if String.eqb name "which" then
    match args with
    | [arg] =>
      if String.eqb arg "make" then Some {| exec.duration := Some 2; exec.exitCode := 0 |}
      else if String.eqb arg "python3" then Some {| exec.duration := Some 3; exec.exitCode := 1 |}
      else Some {| exec.duration := Some 1; exec.exitCode := 1 |}
    | _ => Some {| exec.duration := Some 1; exec.exitCode := 2 |}
    end
  else None.

(** The template of the descriptor whose text is [{"check": [[]]}]: one
    check, with no program and no argument. *)
Definition emptyArgv : Template :=
  {| Description := EmptyString; Manifest := types.zero; PostClone := EmptyString;
     Check := Some [Some []]; Files := None |}.

(** A template with three probes: the second fails on [exampleHost], the
    third names a program that does not exist. *)
Definition probePython : Template :=
  {| Description := EmptyString; Manifest := types.zero; PostClone := EmptyString;
     Check := Some [Some ["which"; "make"]; Some ["which"; "python3"];
                    Some ["no-such-program"]];
     Files := None |}.

(** A template with two probes, which both pass on [exampleHost]. *)
Definition probeMake : Template :=
  {| Description := EmptyString; Manifest := types.zero; PostClone := EmptyString;
     Check := Some [Some ["which"; "make"]; Some ["which"; "make"]];
     Files := None |}.

(** A template whose check list is empty, not nil. *)
Definition noChecks : Template :=
  {| Description := EmptyString; Manifest := types.zero; PostClone := EmptyString;
     Check := Some []; Files := None |}.

(** The world at the start of the clock. *)
Definition initial : World := {| now := 0; ran := [] |}.

(** ** Vocabulary of the further properties *)

(** No byte of the string is a slash. *)
Fixpoint noSlash (s : string) : bool :=
  match s with
  | EmptyString => true
  | String c r => negb (Ascii.eqb c "/"%char) && noSlash r
  end.

(** A name of a directory entry that [path.Join] keeps apart from its
    neighbours and [strings.Trim] leaves whole: not empty, without a slash,
    and neither starting nor ending with a dot. *)
Definition cleanName (n : string) : bool :=
  noSlash n
  && match n with
     | EmptyString => false
     | String c _ => negb (Ascii.eqb c "."%char)
     end
  && match lastByte n with
     | None => false
     | Some l => negb (Ascii.eqb l "."%char)
     end.

(** A string that starts and ends outside the cutset [/.]: the trimming of
    [mustEmbed] leaves it whole. *)
Definition tidy (s : string) : Prop :=
  (∃ c r, s = String c r ∧ strings.inCutset "/." c = false)
  ∧ (∃ l, lastByte s = Some l ∧ strings.inCutset "/." l = false).

(** A file tree in which the entries of every directory have clean names,
    different from one another. *)
Inductive wellNamed : fs.node → Prop :=
  | wellNamed_File content : wellNamed (fs.File content)
  | wellNamed_Dir es :
      NoDup es.*1 →
      Forall (λ nd, cleanName nd.1 = true ∧ wellNamed nd.2) es →
      wellNamed (fs.Dir es).

(** A host file system whose directory [/etc/templates] holds one
    descriptor, named in lower case. *)
Definition lowercaseDisk : os.FileSystem :=
  {| os.ReadDir := λ dir,
       if String.eqb dir "/etc/templates" then
         Ok [ {| os.Name := "python.json"; os.IsDir := false |} ]
       else Err (PathError "open" dir ENOENT);
     os.Open := λ name,
       if String.eqb name "/etc/templates/python.json" then
         Ok (json.Text (marshalTemplate (H := exampleCodec) overridePython))
       else Err (PathError "open" name ENOENT) |}.

(** The error [Read] returns, nil when it returns none. *)
Definition errorOf (r : ReadResult) : option error :=
  match r with
  | OpenFailed err => Some err
  | Decoded _ err => err
  end.

(** A host on which every program starts and none ever exits. *)
Definition stuckHost : exec.Host := λ _ _ _,
  Some {| exec.duration := None; exec.exitCode := 0 |}.

(** * Properties *)

(** ** Strings *)

Lemma TrimLeft_head s cutset c r :
  strings.TrimLeft s cutset = String c r → strings.inCutset cutset c = false.
Proof.
  induction s as [|a s IH]; simpl; [discriminate|].
  destruct (strings.inCutset cutset a) eqn:Ha; [exact IH|].
  intros [= <- _]. exact Ha.
Qed.

Lemma Trim_head s cutset c r :
  strings.Trim s cutset = String c r → strings.inCutset cutset c = false.
Proof. apply TrimLeft_head. Qed.

Lemma inCutset_slash_dot c :
  strings.inCutset "/." c = false → c ≠ "/"%char ∧ c ≠ "."%char.
Proof.
  unfold strings.inCutset. simpl. intros H.
  apply orb_false_iff in H as [H1 H2]. apply orb_false_iff in H2 as [H2 _].
  split; intros ->; simpl in *; discriminate.
Qed.

Lemma substring_all (s : string) : String.substring 0 (String.length s) s = s.
Proof. induction s as [|a s IH]; simpl; [done|]. by rewrite IH. Qed.

Lemma substring_split (s : string) (n : nat) :
  (n ≤ String.length s)%nat →
  s = String.substring 0 n s +:+ String.substring n (String.length s - n) s.
Proof.
  revert n. induction s as [|a s IH]; intros n Hn.
  - destruct n; [done|simpl in Hn; lia].
  - destruct n as [|n].
    + rewrite Nat.sub_0_r, substring_all. by destruct s.
    + simpl in *.
      change (String a s
              = String a (String.substring 0 n s
                          +:+ String.substring n (String.length s - n) s)).
      f_equal. apply IH. lia.
Qed.

(** A name with the suffix is the name cut before the suffix, and the suffix. *)
Lemma HasSuffix_slice s suffix :
  strings.HasSuffix s suffix = true →
  s = slice_to s (String.length s - String.length suffix) +:+ suffix.
Proof.
  unfold strings.HasSuffix, slice_to. intros H.
  apply andb_true_iff in H as [Hlen Heq].
  apply Nat.leb_le in Hlen. apply String.eqb_eq in Heq.
  rewrite (substring_split s (String.length s - String.length suffix)) at 1 by lia.
  f_equal. rewrite <- Heq at 3. f_equal. lia.
Qed.

(** ** The asset walk *)

(** Induction on a file tree: a directory inherits from its entries. *)
Lemma node_ind' (P : fs.node → Prop) :
  (∀ content, P (fs.File content)) →
  (∀ es, Forall (λ nd, P nd.2) es → P (fs.Dir es)) →
  ∀ d, P d.
Proof.
  intros Hf Hd. fix IH 1. intros [content|es].
  - apply Hf.
  - apply Hd. induction es as [|[n d1] es IHes]; constructor; [apply IH|exact IHes].
Qed.

Lemma walkDir_Dir {S : Type} (fn : string → fs.visit → S → S * option error) name es s :
  fs.walkDir fn name (fs.Dir es) s =
  match fn name (fs.Entry (fs.Dir es)) s with
  | (s1, Some err) => (s1, Some err)
  | (s1, None) => fs.walkEntries fn name es s1
  end.
Proof.
  simpl. destruct (fn name (fs.Entry (fs.Dir es)) s) as [s1 [err|]]; [done|].
  revert s1. induction es as [|[n1 d1] es IH]; intros s1; simpl; [done|].
  destruct (fs.walkDir fn (path.Join name n1) d1 s1) as [s2 [err|]]; [done|]. apply IH.
Qed.

Lemma walkDir_mustEmbed d :
  ∀ name s, ∃ s', fs.walkDir mustEmbed_fn name d s = (s', None) ∧ walk_spec name d s s'.
Proof.
  induction d as [content|es IH] using node_ind'; intros name s.
  - eexists. split; [reflexivity|]. split; [|split].
    + intros k v Hk. destruct (decide (k = strings.Trim name "/.")) as [->|Hne].
      * rewrite lookup_insert_eq in Hk. injection Hk as <-.
        right. exists []. split; [constructor|done].
      * rewrite lookup_insert_ne in Hk by done. by left.
    + intros elems c Hr. inversion Hr; subst. simpl. rewrite lookup_insert_eq. eauto.
    + intros k Hk. destruct (decide (strings.Trim name "/." = k)) as [->|Hne].
      * rewrite lookup_insert_eq. eauto.
      * by rewrite lookup_insert_ne.
  - rewrite walkDir_Dir. simpl.
    assert (∃ s', fs.walkEntries mustEmbed_fn name es s = (s', None)
              ∧ (∀ k v, s' !! k = Some v →
                   s !! k = Some v
                   ∨ ∃ n d1 elems, (n, d1) ∈ es ∧ fs.reaches d1 elems (fs.File v)
                       ∧ k = strings.Trim (foldl path.Join (path.Join name n) elems) "/.")
              ∧ (∀ n d1 elems content, (n, d1) ∈ es → fs.reaches d1 elems (fs.File content) →
                   is_Some (s' !! strings.Trim (foldl path.Join (path.Join name n) elems) "/."))
              ∧ (∀ k, is_Some (s !! k) → is_Some (s' !! k))) as (s' & Hw & H1 & H2 & H3).
    { clear -IH. revert s. induction es as [|[n1 d1] es IHes]; intros s.
      - exists s. split; [done|]. split; [by left|]. split; [|done].
        intros n d1 elems content Hin. by apply elem_of_nil in Hin.
      - apply Forall_cons in IH as [Hd1 Hes]. simpl in Hd1.
        destruct (Hd1 (path.Join name n1) s) as (s1 & Hw1 & Ha & Hb & Hc).
        destruct (IHes Hes s1) as (s2 & Hw2 & Ha2 & Hb2 & Hc2).
        exists s2. split; [simpl; by rewrite Hw1|]. split; [|split].
        + intros k v Hk. destruct (Ha2 k v Hk) as [Hk1|(n & d & elems & Hin & Hr & ->)].
          * destruct (Ha k v Hk1) as [?|(elems & Hr & ->)]; [by left|].
            right. exists n1, d1, elems. split; [left|done].
          * right. exists n, d, elems. split; [by right|done].
        + intros n d elems content Hin Hr.
          apply elem_of_cons in Hin as [[= -> ->]|Hin].
          * apply Hc2. by eapply Hb.
          * by eapply Hb2.
        + intros k Hk. by apply Hc2, Hc. }
    exists s'. split; [done|]. split; [|split; [|done]].
    + intros k v Hk. destruct (H1 k v Hk) as [?|(n & d1 & elems & Hin & Hr & ->)]; [by left|].
      right. exists (n :: elems). split; [by econstructor|done].
    + intros elems content Hr. inversion Hr; subst. simpl. by eapply H2.
Qed.

(** [mustEmbed] panics exactly when its root is no valid path or does not
    exist; else it returns the map the walk of the root fills. *)
Lemma mustEmbed_returns assets root out :
  mustEmbed assets root = Returns out →
  ∃ sub d, fs.Sub assets root = Ok sub ∧ fs.StatRoot sub = Ok d
           ∧ fs.walkDir mustEmbed_fn "." d ∅ = (out, None).
Proof.
  unfold mustEmbed, fs.WalkDir. destruct (fs.Sub assets root) as [sub|err]; [|done].
  destruct (fs.StatRoot sub) as [d|err] eqn:Hstat; [|done].
  destruct (walkDir_mustEmbed d "." ∅) as (s' & Hw & _). rewrite Hw.
  intros [= <-]. by exists sub, d.
Qed.

(** C8. Every key of the map [mustEmbed] returns starts with neither [/]
    nor [.], and the value under it is the content of a file of the tree
    below the root, the file whose walk name, trimmed, is the key. *)
Theorem mustEmbed_keys_and_contents assets root out p content :
  mustEmbed assets root = Returns out →
  out !! p = Some content →
  (∀ c r, p = String c r → c ≠ "/"%char ∧ c ≠ "."%char)
  ∧ ∃ sub d elems,
      fs.Sub assets root = Ok sub ∧ fs.StatRoot sub = Ok d
      ∧ fs.reaches d elems (fs.File content)
      ∧ p = strings.Trim (fs.walkName elems) "/.".
Proof.
  intros Hm Hp. destruct (mustEmbed_returns _ _ _ Hm) as (sub & d & Hsub & Hstat & Hw).
  destruct (walkDir_mustEmbed d "." ∅) as (s' & Hw' & Hsound & _).
  rewrite Hw in Hw'. injection Hw' as <-.
  destruct (Hsound p content Hp) as [Hempty|(elems & Hr & ->)].
  { by rewrite lookup_empty in Hempty. }
  split.
  - intros c r Heq. apply inCutset_slash_dot. by eapply Trim_head.
  - by exists sub, d, elems.
Qed.

Lemma mustEmbed_keys_and_contents_witness :
  mustEmbed exampleAssets "assets/python"
    = Returns {[ "Makefile" := "install:"; "app.py" := "import sys";
                 "requirements.txt" := EmptyString ]}
  ∧ (∀ c r, "app.py" = String c r → c ≠ "/"%char ∧ c ≠ "."%char)
  ∧ ∃ sub d elems,
      fs.Sub exampleAssets "assets/python" = Ok sub ∧ fs.StatRoot sub = Ok d
      ∧ fs.reaches d elems (fs.File "import sys")
      ∧ "app.py" = strings.Trim (fs.walkName elems) "/.".
Proof.
  split; [vm_compute; reflexivity|].
  apply (mustEmbed_keys_and_contents exampleAssets "assets/python"
           {[ "Makefile" := "install:"; "app.py" := "import sys";
              "requirements.txt" := EmptyString ]} "app.py" "import sys");
    vm_compute; reflexivity.
Defined.

(** *** The keys of the walk, file by file *)




















(** ** The directory loader and the merger *)

Section loader.
Context `{!json.Codec types.Manifest} (disk : os.FileSystem).

(** The loop of [List] leaves the entries of [ext] over those of [merged]. *)
Lemma List_range_union (ext merged : gmap string Template) :
  List_range ext merged = ext ∪ merged.
Proof.
  unfold List_range. induction ext as [|name t ext Hname Hfirst IH] using map_first_key_ind.
  - by rewrite map_fold_empty, (left_id_L ∅ (∪)).
  - rewrite map_fold_insert_first_key by done.
    by rewrite IH, insert_union_l.
Qed.

(** X2. The order in which the loop of [List] visits the entries of [ext],
    which Go leaves open, does not show in the result. *)
Lemma List_range_any_order (ext merged : gmap string Template) l :
  l ≡ₚ map_to_list ext →
  foldl (λ m nt, <[nt.1 := nt.2]> m) merged l = List_range ext merged.
Proof.
  intros Hl. rewrite List_range_union.
  assert (NoDup l.*1) as Hnd.
  { rewrite Hl. apply NoDup_fst_map_to_list. }
  rewrite <- (list_to_map_to_list ext), <- (list_to_map_proper _ _ Hnd Hl).
  clear Hl. revert merged. induction l as [|[name t] l IH]; intros merged; simpl.
  - by rewrite (left_id_L ∅ (∪)).
  - apply NoDup_cons in Hnd as [Hname Hnd].
    rewrite IH by done. rewrite <- insert_union_r, insert_union_l; [done|].
    by apply not_elem_of_list_to_map_1.
Qed.

(** The loop of [ListDir] returns a map and no error, or an error and no
    map. *)
Lemma ListDir_range_shape dir items ans :
  (∃ ext, ListDir_range disk dir items ans = (Some ext, None))
  ∨ (∃ err, ListDir_range disk dir items ans = (None, Some err)).
Proof.
  revert ans. induction items as [|item items IH]; intros ans; simpl; [eauto|].
  destruct (os.IsDir item || negb (strings.HasSuffix (os.Name item) suffix)); [apply IH|].
  destruct (Read disk _) as [err|t [err|]]; eauto.
Qed.

(** Every entry the loop adds is the template [Read] decodes, without an
    error, from the file of that name and the suffix. *)
Lemma ListDir_range_lookup dir items ans ext name t :
  ListDir_range disk dir items ans = (Some ext, None) →
  ext !! name = Some t →
  ans !! name = Some t ∨ Read disk (filepath.Join dir (name +:+ suffix)) = Decoded t None.
Proof.
  revert ans. induction items as [|item items IH]; intros ans; simpl.
  - intros [= <-]. by left.
  - destruct (os.IsDir item || negb (strings.HasSuffix (os.Name item) suffix)) eqn:Hq;
      [apply IH|].
    apply orb_false_iff in Hq as [_ Hsuf]. apply negb_false_iff in Hsuf.
    destruct (Read disk (filepath.Join dir (os.Name item))) as [err|t' [err|]] eqn:Hread;
      [done..|].
    intros Hrange Hext. destruct (IH _ Hrange Hext) as [Hans|?]; [|by right].
    set (name' := slice_to (os.Name item) (String.length (os.Name item) - String.length suffix))
      in *.
    destruct (decide (name' = name)) as [<-|Hne].
    + rewrite lookup_insert_eq in Hans. injection Hans as <-. right.
      subst name'. by rewrite <- (HasSuffix_slice _ _ Hsuf).
    + rewrite lookup_insert_ne in Hans by done. by left.
Qed.

(** A descriptor that cannot be read makes the loop return its error, or
    the error of a descriptor listed before it. *)
Lemma ListDir_range_fails dir items ans item :
  item ∈ items → qualifies item = true →
  failed (Read disk (filepath.Join dir (os.Name item))) = true →
  ∃ err, ListDir_range disk dir items ans = (None, Some err).
Proof.
  intros Hin Hq Hfail. revert ans.
  induction items as [|item' items IH]; intros ans; [by apply elem_of_nil in Hin|].
  simpl. destruct (os.IsDir item' || negb (strings.HasSuffix (os.Name item') suffix)) eqn:Hq'.
  - apply elem_of_cons in Hin as [->|Hin]; [|by apply IH].
    unfold qualifies in Hq. apply andb_true_iff in Hq as [Hd Hs].
    apply orb_true_iff in Hq' as [Hd'|Hs'].
    + by rewrite Hd' in Hd.
    + by rewrite Hs in Hs'.
  - destruct (Read disk (filepath.Join dir (os.Name item'))) as [err|t [err|]] eqn:Hread;
      [eauto..|].
    apply elem_of_cons in Hin as [->|Hin]; [|by apply IH].
    by rewrite Hread in Hfail.
Qed.

(** X1. [ListDir] returns a map and no error, or an error and no map: never
    a part of the catalog beside an error. *)
Lemma ListDir_shape dir :
  (∃ ext, ListDir disk dir = (Some ext, None)) ∨ (∃ err, ListDir disk dir = (None, Some err)).
Proof.
  unfold ListDir. destruct (os.ReadDir disk dir) as [items|err].
  - apply ListDir_range_shape.
  - destruct (os.IsNotExist err); eauto.
Qed.

(** Every template of the map [ListDir] returns is what [Read] decodes,
    without an error, from the descriptor of its name in [dir]. *)
Lemma ListDir_lookup dir ext name t :
  ListDir disk dir = (Some ext, None) →
  ext !! name = Some t →
  Read disk (filepath.Join dir (name +:+ suffix)) = Decoded t None.
Proof.
  unfold ListDir. destruct (os.ReadDir disk dir) as [items|err].
  - intros Hrange Hext.
    destruct (ListDir_range_lookup _ _ _ _ _ _ Hrange Hext) as [Hempty|?]; [|done].
    by rewrite lookup_empty in Hempty.
  - destruct (os.IsNotExist err); [|done]. intros [= <-]. by rewrite lookup_empty.
Qed.

End loader.

(** C1. A name that the embedded catalog and the directory loader both hold
    is mapped by [List] to the template of the loader, which is, whole, what
    [Read] decodes from the descriptor file of that name; the embedded
    template of the name is not in the result. *)
Theorem List_override_shadows `{!json.Codec types.Manifest} assets disk dir
    emb ext name t_emb t_disk :
  ListEmbedded assets = Returns emb →
  ListDir disk dir = (Some ext, None) →
  emb !! name = Some t_emb →
  ext !! name = Some t_disk →
  ∃ merged,
    List assets disk dir = Returns (Some merged, None)
    ∧ merged !! name = Some t_disk
    ∧ Read disk (filepath.Join dir (name +:+ suffix)) = Decoded t_disk None.
Proof.
  intros Hemb Hdir _ Hext. exists (ext ∪ emb). split; [|split].
  - unfold List. rewrite Hemb. simpl. rewrite Hdir. simpl. by rewrite List_range_union.
  - by apply lookup_union_Some_l.
  - by eapply ListDir_lookup.
Qed.

Lemma List_override_shadows_witness :
  (∃ t_emb, exampleEmbedded !! "Python" = Some t_emb ∧ t_emb ≠ overridePython)
  ∧ ∃ merged,
      List (H := exampleCodec) exampleAssets exampleDisk "/etc/templates"
        = Returns (Some merged, None)
      ∧ merged !! "Python" = Some overridePython
      ∧ Read (H := exampleCodec) exampleDisk
          (filepath.Join "/etc/templates" ("Python" +:+ suffix))
        = Decoded overridePython None.
Proof.
  split.
  - exists (default zeroTemplate (exampleEmbedded !! "Python")).
    split; [vm_compute; reflexivity|vm_compute; discriminate].
  - apply (List_override_shadows (H := exampleCodec) exampleAssets exampleDisk
             "/etc/templates" exampleEmbedded {[ "Python" := overridePython ]} "Python"
             (default zeroTemplate (exampleEmbedded !! "Python")) overridePython);
      vm_compute; reflexivity.
Defined.

(** C2 as stated fails: a path below a regular file names nothing, so the
    directory does not exist, yet its lookup fails with [ENOTDIR], which
    [os.IsNotExist] does not take for a missing file: [ListDir] and [List]
    return the nil map and the error. *)
Lemma List_missing_dir_below_file :
  os.lookup plainTree "plain/sub" = inl ENOTDIR
  ∧ ListDir (H := exampleCodec) plainDisk "plain/sub"
    = (None, Some (PathError "open" "plain/sub" ENOTDIR))
  ∧ List (H := exampleCodec) exampleAssets plainDisk "plain/sub"
    = Returns (None, Some (PathError "open" "plain/sub" ENOTDIR)).
Proof. split; [reflexivity|]. split; vm_compute; reflexivity. Qed.

(** C2, amended. For a directory the reading of which fails with an error
    that [os.IsNotExist] takes for a missing file ([ENOENT]: the last name
    of the path, or one before it, is not in its directory), [ListDir]
    returns an empty map, not nil, and no error, and [List] returns the
    embedded catalog as [ListEmbedded] returns it, and no error. *)
Theorem List_missing_dir `{!json.Codec types.Manifest} assets disk dir err emb :
  os.ReadDir disk dir = Err err →
  os.IsNotExist err = true →
  ListEmbedded assets = Returns emb →
  ListDir disk dir = (Some ∅, None)
  ∧ List assets disk dir = Returns (Some emb, None).
Proof.
  intros Hread Hne Hemb.
  assert (ListDir disk dir = (Some ∅, None)) as Hdir.
  { unfold ListDir. by rewrite Hread, Hne. }
  split; [done|].
  unfold List. rewrite Hemb. simpl. rewrite Hdir. simpl.
  by rewrite List_range_union, (left_id_L ∅ (∪)).
Qed.

Lemma List_missing_dir_witness :
  ListEmbedded exampleAssets = Returns exampleEmbedded
  ∧ (ListDir (H := exampleCodec) exampleDisk "/nowhere" = (Some ∅, None)
     ∧ List (H := exampleCodec) exampleAssets exampleDisk "/nowhere"
       = Returns (Some exampleEmbedded, None))
  ∧ os.lookup plainTree "templates/extra" = inl ENOENT
  ∧ ListDir (H := exampleCodec) plainDisk "templates/extra" = (Some ∅, None)
  ∧ List (H := exampleCodec) exampleAssets plainDisk "templates/extra"
    = Returns (Some exampleEmbedded, None).
Proof.
  split; [vm_compute; reflexivity|]. split; [|split; [reflexivity|]].
  - apply (List_missing_dir (H := exampleCodec) exampleAssets exampleDisk "/nowhere"
             (PathError "open" "/nowhere" ENOENT) exampleEmbedded);
      vm_compute; reflexivity.
  - apply (List_missing_dir (H := exampleCodec) exampleAssets plainDisk "templates/extra"
             (PathError "open" "templates/extra" ENOENT) exampleEmbedded);
      vm_compute; reflexivity.
Defined.

(** C3. When the directory cannot be read (for another reason than not to
    exist) or one of its descriptors cannot be opened or decoded, [ListDir]
    and [List] return an error and the nil map: no part of the catalog, and
    not the embedded catalog either. *)
Theorem List_load_failure `{!json.Codec types.Manifest} assets disk dir emb :
  loadFails disk dir →
  ListEmbedded assets = Returns emb →
  ∃ err, ListDir disk dir = (None, Some err)
         ∧ List assets disk dir = Returns (None, Some err).
Proof.
  intros Hfail Hemb.
  assert (∃ err, ListDir disk dir = (None, Some err)) as [err Hdir].
  { unfold ListDir.
    destruct Hfail as [(err & -> & ->)|(items & item & -> & Hin & Hq & Hread)]; [eauto|].
    by eapply ListDir_range_fails. }
  exists err. split; [done|].
  unfold List. rewrite Hemb. simpl. by rewrite Hdir.
Qed.

Lemma List_load_failure_witness :
  (∃ err, ListDir (H := exampleCodec) exampleDisk "/srv/broken" = (None, Some err)
          ∧ List (H := exampleCodec) exampleAssets exampleDisk "/srv/broken"
            = Returns (None, Some err))
  ∧ (∃ err, ListDir (H := exampleCodec) exampleDisk "/root/secret" = (None, Some err)
            ∧ List (H := exampleCodec) exampleAssets exampleDisk "/root/secret"
              = Returns (None, Some err)).
Proof.
  split.
  - apply (List_load_failure (H := exampleCodec) exampleAssets exampleDisk "/srv/broken"
             exampleEmbedded).
    + right. exists [ {| os.Name := "bad.json"; os.IsDir := false |} ],
        {| os.Name := "bad.json"; os.IsDir := false |}.
      split; [reflexivity|]. split; [left|]. split; reflexivity.
    + vm_compute; reflexivity.
  - apply (List_load_failure (H := exampleCodec) exampleAssets exampleDisk "/root/secret"
             exampleEmbedded).
    + left. eexists. split; reflexivity.
    + vm_compute; reflexivity.
Defined.

Lemma List_range_any_order_witness :
  foldl (λ m nt, <[nt.1 := nt.2]> m) ({[ "Python" := probePython ]} : gmap string Template)
        (reverse (map_to_list ({[ "Python" := overridePython; "Make" := probeMake ]}
                               : gmap string Template)))
  = List_range {[ "Python" := overridePython; "Make" := probeMake ]}
               {[ "Python" := probePython ]}.
Proof.
  apply (List_range_any_order {[ "Python" := overridePython; "Make" := probeMake ]}
           {[ "Python" := probePython ]}).
  apply reverse_Permutation.
Defined.

(** ** The descriptor as JSON *)

(** Well-formed UTF-8 goes through the encoder and the decoder unchanged. *)
Lemma coerce_validFrom s : ∀ k, utf8.validFrom k s = true → json.coerce k s = s.
Proof.
  induction s as [|a s IH]; intros k; [done|].
  cbn -[utf8.runeLen]. destruct k as [|k].
  - destruct (utf8.runeLen (String a s)) as [n|]; [|done].
    intros Hv. f_equal. by apply IH.
  - intros Hv. f_equal. by apply IH.
Qed.

Lemma coerce_valid s : utf8.ValidString s = true → json.coerce 0 s = s.
Proof. apply coerce_validFrom. Qed.

Lemma decodeString_encodeString field s cur :
  utf8.ValidString s = true →
  json.decodeString field (json.encodeString s) cur = (s, None).
Proof. intros Hs. simpl. by rewrite !(coerce_valid _ Hs). Qed.

Lemma decodeStrings_encodeStrings field (x : slice string) cur :
  (∀ arg, arg ∈ elems x → utf8.ValidString arg = true) →
  json.decodeStrings field (json.encodeStrings x) cur = (x, None).
Proof.
  destruct x as [l|]; [|done]. simpl. intros Hl.
  assert (json.decodeElems (λ v, json.decodeString field v EmptyString) (json.encodeString <$> l)
          = (l, None)) as ->; [|done].
  induction l as [|s l IH]; [done|].
  cbn [fmap list_fmap json.decodeElems].
  rewrite decodeString_encodeString by (apply Hl; left).
  rewrite IH; [done|]. intros arg Harg. apply Hl. by right.
Qed.

Lemma decodeStringss_encodeStringss field (l : list (slice string)) cur :
  (∀ check arg, check ∈ l → arg ∈ elems check → utf8.ValidString arg = true) →
  json.decodeStringss field (json.encodeStringss (Some l)) cur = (Some l, None).
Proof.
  simpl. intros Hl.
  assert (json.decodeElems (λ v, json.decodeStrings field v None) (json.encodeStrings <$> l)
          = (l, None)) as ->; [|done].
  induction l as [|x l IH]; [done|].
  cbn [fmap list_fmap json.decodeElems].
  rewrite decodeStrings_encodeStrings by (intros arg; apply Hl; left).
  rewrite IH; [done|]. intros check arg Hcheck. apply Hl. by right.
Qed.

(** The members written for distinct keys are stored over the map at hand. *)
Lemma decodeMembers_encode field (l : list (string * string)) (g : gmap string string) :
  NoDup l.*1 →
  (∀ k v, (k, v) ∈ l → utf8.ValidString k = true ∧ utf8.ValidString v = true) →
  json.decodeMembers field ((λ kv, (json.coerce 0 kv.1, json.encodeString kv.2)) <$> l) g
  = (list_to_map l ∪ g, None).
Proof.
  revert g. induction l as [|[k v] l IH]; intros g Hnd Hl.
  - simpl. by rewrite (left_id_L ∅ (∪)).
  - apply NoDup_cons in Hnd as [Hk Hnd].
    destruct (Hl k v ltac:(left)) as [Hvk Hvv].
    cbn [fmap list_fmap json.decodeMembers fst snd].
    rewrite decodeString_encodeString by done.
    rewrite IH; [|done|intros; apply Hl; by right].
    rewrite !(coerce_valid _ Hvk). simpl.
    rewrite <- insert_union_r, insert_union_l; [done|].
    by apply not_elem_of_list_to_map_1.
Qed.

Lemma decodeMap_encodeMap field (g : gmap string string) :
  (∀ k v, g !! k = Some v → utf8.ValidString k = true ∧ utf8.ValidString v = true) →
  json.decodeMap field (json.encodeMap (Some g)) None = (Some g, None).
Proof.
  intros Hg. simpl. rewrite decodeMembers_encode.
  - by rewrite list_to_map_to_list, (right_id_L ∅ (∪)).
  - apply NoDup_fst_map_to_list.
  - intros k v Hkv. apply Hg. by apply elem_of_map_to_list.
Qed.

Section descriptor.
Context `{!json.Codec types.Manifest}.

Lemma unmarshalFields_app ms1 ms2 t :
  unmarshalFields (ms1 ++ ms2) t =
  let '(t1, e1) := unmarshalFields ms1 t in
  let '(t2, e2) := unmarshalFields ms2 t1 in
  (t2, json.saveError e1 e2).
Proof.
  revert t. induction ms1 as [|[key v] ms1 IH]; intros t; simpl.
  - by destruct (unmarshalFields ms2 t).
  - destruct (unmarshalField key v t) as [t1 e]. rewrite IH.
    destruct (unmarshalFields ms1 t1) as [t2 e1].
    destruct (unmarshalFields ms2 t2) as [t3 e2]. by destruct e, e1.
Qed.

(** Each key the encoder writes selects its field. *)
Lemma unmarshalField_description v t :
  unmarshalField "description" v t =
  let '(x, e) := json.decodeString "description" v (Description t) in
  ({| Description := x; Manifest := Manifest t; PostClone := PostClone t;
      Check := Check t; Files := Files t |}, e).
Proof. reflexivity. Qed.

Lemma unmarshalField_manifest v t :
  unmarshalField "manifest" v t =
  let '(x, e) := json.UnmarshalJSON v (Manifest t) in
  ({| Description := Description t; Manifest := x; PostClone := PostClone t;
      Check := Check t; Files := Files t |}, e).
Proof. reflexivity. Qed.

Lemma unmarshalField_post_clone v t :
  unmarshalField "post_clone" v t =
  let '(x, e) := json.decodeString "post_clone" v (PostClone t) in
  ({| Description := Description t; Manifest := Manifest t; PostClone := x;
      Check := Check t; Files := Files t |}, e).
Proof. reflexivity. Qed.

Lemma unmarshalField_check v t :
  unmarshalField "check" v t =
  let '(x, e) := json.decodeStringss "check" v (Check t) in
  ({| Description := Description t; Manifest := Manifest t; PostClone := PostClone t;
      Check := x; Files := Files t |}, e).
Proof. reflexivity. Qed.

Lemma unmarshalField_files v t :
  unmarshalField "files" v t =
  let '(x, e) := json.decodeMap "files" v (Files t) in
  ({| Description := Description t; Manifest := Manifest t; PostClone := PostClone t;
      Check := Check t; Files := x |}, e).
Proof. reflexivity. Qed.

(** Decoding what the encoder writes for [t] into the zero template gives
    [t] back, when the strings of [t] are UTF-8, its manifest comes back
    from its own JSON form, and neither its check list nor its file map
    is empty without being nil. *)
Lemma unmarshal_marshal t :
  json.UnmarshalJSON (json.MarshalJSON (Manifest t)) types.zero = (Manifest t, None) →
  validStrings t →
  Check t ≠ Some [] →
  Files t ≠ Some ∅ →
  unmarshalTemplate (marshalTemplate t) zeroTemplate = (t, None).
Proof.
  destruct t as [d m p c f]. unfold validStrings.
  cbn [Description Manifest PostClone Check Files].
  intros Hm (Hd & Hp & Hc & Hf) Hcne Hfne.
  unfold marshalTemplate, unmarshalTemplate. cbn [Description Manifest PostClone Check Files].
  change ([("description", json.encodeString d); ("manifest", json.MarshalJSON m)] ++ ?l)
    with (("description", json.encodeString d) :: ("manifest", json.MarshalJSON m) :: l).
  cbn [unmarshalFields]. rewrite unmarshalField_description.
  rewrite decodeString_encodeString by done.
  rewrite unmarshalField_manifest.
  cbn [Description Manifest PostClone Check Files zeroTemplate]. rewrite Hm.
  rewrite unmarshalFields_app.
  assert (unmarshalFields
            (if String.eqb p EmptyString then []
             else [("post_clone", json.encodeString p)])
            {| Description := d; Manifest := m; PostClone := EmptyString;
               Check := None; Files := None |}
          = ({| Description := d; Manifest := m; PostClone := p;
                Check := None; Files := None |}, None)) as ->.
  { destruct (String.eqb p EmptyString) eqn:Hpe.
    - apply String.eqb_eq in Hpe. by subst.
    - cbn [unmarshalFields]. rewrite unmarshalField_post_clone.
      by rewrite decodeString_encodeString. }
  cbv beta iota zeta. rewrite unmarshalFields_app.
  assert (unmarshalFields
            (if (length (elems c) =? 0)%nat then []
             else [("check", json.encodeStringss c)])
            {| Description := d; Manifest := m; PostClone := p;
               Check := None; Files := None |}
          = ({| Description := d; Manifest := m; PostClone := p;
                Check := c; Files := None |}, None)) as ->.
  { destruct c as [[|check l]|]; [done| |done].
    cbn [elems length Nat.eqb unmarshalFields]. rewrite unmarshalField_check.
    by rewrite decodeStringss_encodeStringss. }
  cbv beta iota zeta.
  assert (unmarshalFields
            (if (size (entries f) =? 0)%nat then []
             else [("files", json.encodeMap f)])
            {| Description := d; Manifest := m; PostClone := p;
               Check := c; Files := None |}
          = ({| Description := d; Manifest := m; PostClone := p;
                Check := c; Files := f |}, None)) as ->.
  { destruct f as [g|]; [|done]. cbn [entries].
    destruct (size g =? 0)%nat eqn:Hsize.
    - apply Nat.eqb_eq, map_size_empty_iff in Hsize. by subst.
    - cbn [unmarshalFields]. rewrite unmarshalField_files.
      cbn [Files]. by rewrite decodeMap_encodeMap. }
  done.
Qed.

End descriptor.

(** C7, amended. A template whose strings are well-formed UTF-8, whose
    manifest comes back from its own JSON form, and whose check list and file
    map are each nil or not empty, comes back from [Read] equal to itself,
    and without an error, when the file holds what [json.Marshal] writes for
    it. *)
Theorem Read_marshal_roundtrip `{!json.Codec types.Manifest} disk filename t :
  os.Open disk filename = Ok (json.Text (marshalTemplate t)) →
  json.UnmarshalJSON (json.MarshalJSON (Manifest t)) types.zero = (Manifest t, None) →
  validStrings t →
  Check t ≠ Some [] →
  Files t ≠ Some ∅ →
  Read disk filename = Decoded t None.
Proof.
  intros Hopen Hm Hvalid Hc Hf. unfold Read. rewrite Hopen.
  unfold json.Decode. cbn [json.UnmarshalJSON Template_codec].
  by rewrite unmarshal_marshal.
Qed.

Lemma Read_marshal_roundtrip_witness :
  Read (H := exampleCodec) exampleDisk "/etc/templates/Python.json"
  = Decoded overridePython None.
Proof.
  apply (Read_marshal_roundtrip (H := exampleCodec) exampleDisk
           "/etc/templates/Python.json" overridePython).
  - reflexivity.
  - reflexivity.
  - split; [reflexivity|]. split; [reflexivity|]. split.
    + intros check arg Hcheck. by apply elem_of_nil in Hcheck.
    + intros k v Hkv. simpl in Hkv. apply lookup_singleton_Some in Hkv as [<- <-].
      split; reflexivity.
  - discriminate.
  - discriminate.
Defined.

(** C7 as stated fails, on two templates. A check list that is empty but
    not nil comes back nil, since [check] is written under [omitempty]; and
    a description that is no UTF-8 text comes back with U+FFFD in the place
    of each invalid byte. *)
Lemma Read_marshal_not_identity :
  (Read (H := exampleCodec) (descriptorDisk (H := exampleCodec) noChecks) "noChecks.json"
   = Decoded zeroTemplate None
   ∧ zeroTemplate ≠ noChecks)
  ∧ (Read (H := exampleCodec) (descriptorDisk (H := exampleCodec) latin1) "latin1.json"
     = Decoded {| Description := utf8.RuneError; Manifest := types.zero;
                  PostClone := EmptyString; Check := None; Files := None |} None
     ∧ {| Description := utf8.RuneError; Manifest := types.zero;
          PostClone := EmptyString; Check := None; Files := None |} ≠ latin1).
Proof.
  split; (split; [vm_compute; reflexivity|discriminate]).
Qed.

(** ** The availability checker *)

Section checker.
Context (host : exec.Host).

Lemma run_ran cmd w r w' : run host cmd w = (r, w') → ran w' = ran w ++ [cmd].
Proof.
  unfold run. destruct (exec.Run host cmd (now w)) as [e t]. by intros [= _ <-].
Qed.

(** [Run] does not panic, and it waits for ever only for a child that never
    exits, under a context that never becomes done. *)
Lemma Run_outcome cmd t0 r t1 :
  exec.Run host cmd t0 = (r, t1) →
  match r with
  | Returns _ => True
  | Panics _ => False
  | Blocks =>
    context.DoneAt (exec.ctx cmd) = None
    ∧ ∃ p, host (exec.Path cmd) (exec.Args cmd) t0 = Some p ∧ exec.duration p = None
  end.
Proof.
  unfold exec.Run, context.Done.
  destruct (context.DoneAt (exec.ctx cmd)) as [c|] eqn:Hctx.
  - destruct (c <=? t0); [by intros [= <- <-]|].
    destruct (host (exec.Path cmd) (exec.Args cmd) t0) as [p|]; [|by intros [= <- <-]].
    destruct (exec.duration p) as [d|]; [|by intros [= <- <-]].
    destruct (c <=? t0 + d); by intros [= <- <-].
  - destruct (host (exec.Path cmd) (exec.Args cmd) t0) as [p|]; [|by intros [= <- <-]].
    destruct (exec.duration p) as [d|] eqn:Hd; intros [= <- <-]; [done|].
    split; [done|]. by exists p.
Qed.

Lemma commandsOf_app ctx l1 l2 :
  commandsOf ctx (l1 ++ l2) = commandsOf ctx l1 ++ commandsOf ctx l2.
Proof. unfold commandsOf. apply bind_app. Qed.

Lemma commandsOf_cons ctx check name args checks :
  elems check = name :: args →
  commandsOf ctx (check :: checks) = exec.CommandContext ctx name args :: commandsOf ctx checks.
Proof. intros H. unfold commandsOf. simpl. unfold commandOf. by rewrite H. Qed.

(** Probes that pass are run, all of them, in order. *)
Lemma passes_ran ctx checks w w' :
  passes host ctx checks w w' → ran w' = ran w ++ commandsOf ctx checks.
Proof.
  induction 1 as [w|check name args checks w w1 w2 Hcheck Hrun _ IH].
  - unfold commandsOf. simpl. by rewrite (right_id_L [] (++)).
  - rewrite IH, (run_ran _ _ _ _ Hrun), (commandsOf_cons _ _ _ _ _ Hcheck).
    by rewrite <- (assoc_L (++)).
Qed.

(** After probes that pass, the loop goes on with the rest. *)
Lemma IsAvailable_range_passes ctx pre rest w w1 :
  passes host ctx pre w w1 →
  IsAvailable_range host ctx (pre ++ rest) w = IsAvailable_range host ctx rest w1.
Proof.
  induction 1 as [w|check name args checks w w1 w2 Hcheck Hrun _ IH]; [done|].
  simpl. rewrite Hcheck. unfold internal.SetFlags. by rewrite Hrun.
Qed.

(** A check without a program makes the loop panic when it is reached. *)
Lemma IsAvailable_range_empty_argv ctx pre check post w w1 :
  passes host ctx pre w w1 → elems check = [] →
  IsAvailable_range host ctx (pre ++ check :: post) w
    = (Panics (SliceBoundsOutOfRange 1 0), w1).
Proof.
  intros Hpre Hcheck. rewrite (IsAvailable_range_passes _ _ _ _ _ Hpre). simpl.
  by rewrite Hcheck.
Qed.

(** The loop returns a boolean, or panics on a check without a program, or
    waits for ever for a probe that never exits, under a context that never
    becomes done. *)
Lemma IsAvailable_range_total ctx checks w :
  match (IsAvailable_range host ctx checks w).1 with
  | Returns _ => True
  | Panics p =>
    p = SliceBoundsOutOfRange 1 0 ∧ ∃ check, check ∈ checks ∧ elems check = []
  | Blocks =>
    context.DoneAt ctx = None
    ∧ ∃ check name args t0 p, check ∈ checks ∧ elems check = name :: args
        ∧ host name args t0 = Some p ∧ exec.duration p = None
  end.
Proof.
  revert w. induction checks as [|check checks IH]; intros w; cbn [IsAvailable_range]; [done|].
  destruct (elems check) as [|name args] eqn:Hcheck.
  - split; [done|]. exists check. split; [left|done].
  - unfold internal.SetFlags, run.
    destruct (exec.Run host (exec.CommandContext ctx name args) (now w)) as [r t1] eqn:Hrun.
    apply Run_outcome in Hrun. destruct r as [[err|]|p|]; cbn [fst]; [done| |done|].
    + match goal with |- context [IsAvailable_range host ctx checks ?w1] =>
        specialize (IH w1); destruct (IsAvailable_range host ctx checks w1).1 as [b|p|] end.
      * done.
      * destruct IH as [-> (check' & ? & ?)]. split; [done|].
        exists check'. split; [by right|done].
      * destruct IH as [? (check' & name' & args' & t0 & p & ? & ? & ? & ?)]. split; [done|].
        exists check', name', args', t0, p. split; [by right|done].
    + destruct Hrun as [Hctx (p & Hp & Hd)]. split; [done|].
      exists check, name, args, (now w), p. split; [left|done].
Qed.

(** What the loop returns for the first checks, when it is [false], it
    returns for all of them. *)
Lemma IsAvailable_range_take_false ctx checks n w w' :
  IsAvailable_range host ctx (take n checks) w = (Returns false, w') →
  IsAvailable_range host ctx checks w = (Returns false, w').
Proof.
  revert n w. induction checks as [|check checks IH]; intros n w.
  - by rewrite take_nil.
  - destruct n as [|n]; [done|]. simpl.
    destruct (elems check) as [|name args]; [done|].
    destruct (run host _ w) as [[[err|]|p|] w1]; [done| |done|done]. apply IH.
Qed.

(** A context that becomes done no later than the loop, left alone, would
    be over, makes the loop return [false]; the commands run are the first
    ones of the checks. A loop that, left alone, would wait for ever is
    never over. *)
Lemma IsAvailable_range_canceled ctx c checks w w0 :
  context.DoneAt ctx = Some c →
  checks ≠ [] →
  Forall (λ check, elems check ≠ []) checks →
  now w0 = now w →
  (IsAvailable_range host context.Background checks w0).1 = Blocks
  ∨ c ≤ now (IsAvailable_range host context.Background checks w0).2 →
  ∃ w' k, IsAvailable_range host ctx checks w = (Returns false, w')
          ∧ k ≤ length checks
          ∧ ran w' = ran w ++ commandsOf ctx (take k checks).
Proof.
  intros Hctx Hne Hall. revert w w0 Hne.
  induction Hall as [|check checks Hcheck Hall IH]; intros w w0 Hne Hnow Hc; [done|].
  destruct (elems check) as [|name args] eqn:Hargv; [done|].
  assert (commandsOf ctx (take 1 (check :: checks)) = [exec.CommandContext ctx name args])
    as Hfirst.
  { change (take 1 (check :: checks)) with [check].
    by rewrite (commandsOf_cons _ _ _ _ _ Hargv). }
  cbn [IsAvailable_range] in Hc |- *. rewrite Hargv in Hc |- *.
  unfold internal.SetFlags, run, exec.Run, context.Done in Hc |- *.
  cbn [exec.CommandContext exec.ctx exec.Path exec.Args context.DoneAt] in Hc |- *.
  rewrite Hctx. rewrite Hnow in Hc.
  destruct (c <=? now w) eqn:Hstart.
  { eexists _, 1. split; [done|]. split; [simpl; lia|]. by rewrite Hfirst. }
  apply Nat.leb_gt in Hstart.
  destruct (host name args (now w)) as [p|].
  2:{ eexists _, 1. split; [done|]. split; [simpl; lia|]. by rewrite Hfirst. }
  destruct (exec.duration p) as [d|].
  2:{ eexists _, 1. split; [done|]. split; [simpl; lia|]. by rewrite Hfirst. }
  destruct (c <=? now w + d) eqn:Hkill.
  { eexists _, 1. split; [done|]. split; [simpl; lia|]. by rewrite Hfirst. }
  apply Nat.leb_gt in Hkill. unfold exec.exitError in Hc |- *.
  destruct (exec.exitCode p =? 0)%Z.
  2:{ eexists _, 1. split; [done|]. split; [simpl; lia|]. by rewrite Hfirst. }
  destruct checks as [|check' checks'].
  { simpl in Hc. destruct Hc as [?|?]; [done|lia]. }
  edestruct (IH {| now := now w + d;
                   ran := ran w ++ [exec.CommandContext ctx name args] |})
    as (w' & k & Hrange & Hk & Hran); [done| |exact Hc|]; [reflexivity|].
  exists w', (S k). split; [done|]. split; [simpl in *; lia|].
  rewrite Hran. change (take (S k) (check :: check' :: checks'))
    with (check :: take k (check' :: checks')).
  rewrite (commandsOf_cons _ _ _ _ (take k (check' :: checks')) Hargv). simpl.
  by rewrite <- (assoc_L (++)).
Qed.

End checker.

(** C4. When the probe at a position of the check list is the first one
    whose [Run] returns an error (the context is done, the program cannot be
    started, it is killed or it exits with another status than 0),
    [IsAvailable] returns [false], and the commands run are the probes up to
    that position, none after it; when every probe passes, [IsAvailable]
    returns [true]. The result is a boolean in both cases: no error. *)
Theorem IsAvailable_short_circuit host t ctx w :
  (∀ pre check post name args err w1 w2,
     elems (Check t) = pre ++ check :: post →
     passes host ctx pre w w1 →
     elems check = name :: args →
     run host (exec.CommandContext ctx name args) w1 = (Returns (Some err), w2) →
     IsAvailable host t ctx w = (Returns false, w2)
     ∧ ran w2 = ran w ++ commandsOf ctx (pre ++ [check]))
  ∧ (∀ w',
       passes host ctx (elems (Check t)) w w' →
       IsAvailable host t ctx w = (Returns true, w')
       ∧ ran w' = ran w ++ commandsOf ctx (elems (Check t))).
Proof.
  split.
  - intros pre check post name args err w1 w2 Hchecks Hpre Hargv Hrun.
    unfold IsAvailable. rewrite Hchecks, (IsAvailable_range_passes _ _ _ _ _ _ Hpre).
    simpl. rewrite Hargv. unfold internal.SetFlags. rewrite Hrun. split; [done|].
    rewrite (run_ran _ _ _ _ _ Hrun), (passes_ran _ _ _ _ _ Hpre), commandsOf_app.
    rewrite (commandsOf_cons _ _ _ _ [] Hargv). by rewrite <- (assoc_L (++)).
  - intros w' Hall. unfold IsAvailable. split; [|by eapply passes_ran].
    rewrite <- (right_id_L [] (++) (elems (Check t))).
    by rewrite (IsAvailable_range_passes _ _ _ _ _ _ Hall).
Qed.

Lemma IsAvailable_short_circuit_witness :
  IsAvailable exampleHost probePython context.Background initial
    = (Returns false,
       {| now := 5;
          ran := [exec.CommandContext context.Background "which" ["make"];
                  exec.CommandContext context.Background "which" ["python3"]] |})
  ∧ IsAvailable exampleHost probeMake context.Background initial
    = (Returns true,
       {| now := 4;
          ran := [exec.CommandContext context.Background "which" ["make"];
                  exec.CommandContext context.Background "which" ["make"]] |}).
Proof.
  split.
  - destruct (IsAvailable_short_circuit exampleHost probePython context.Background initial)
      as [Hfail _].
    refine (proj1 (Hfail [Some ["which"; "make"]] (Some ["which"; "python3"])
                     [Some ["no-such-program"]] "which" ["python3"] (ExitError 1)
                     {| now := 2;
                        ran := [exec.CommandContext context.Background "which" ["make"]] |}
                     _ _ _ _ _)); try reflexivity.
    eapply passes_cons; [reflexivity|reflexivity|apply passes_nil].
  - destruct (IsAvailable_short_circuit exampleHost probeMake context.Background initial)
      as [_ Hpass].
    refine (proj1 (Hpass _ _)).
    eapply passes_cons; [reflexivity|reflexivity|].
    eapply passes_cons; [reflexivity|reflexivity|apply passes_nil].
Defined.

(** C5. A template whose check list is empty or nil is available in every
    context and on every host, and the call runs no command. *)
Theorem IsAvailable_no_checks host t ctx w :
  elems (Check t) = [] →
  IsAvailable host t ctx w = (Returns true, w).
Proof. intros Hchecks. unfold IsAvailable. by rewrite Hchecks. Qed.

Lemma IsAvailable_no_checks_witness :
  IsAvailable exampleHost zeroTemplate context.Background initial = (Returns true, initial)
  ∧ IsAvailable exampleHost noChecks (context.WithDeadline 0) initial
    = (Returns true, initial).
Proof.
  split.
  - apply (IsAvailable_no_checks exampleHost zeroTemplate context.Background initial).
    reflexivity.
  - apply (IsAvailable_no_checks exampleHost noChecks (context.WithDeadline 0) initial).
    reflexivity.
Defined.

(** C6, at the input on which the code departs from it. The descriptor
    [{"check": [[]]}] decodes, without an error, to a template with one
    check that is an empty argument vector; on it [IsAvailable] panics
    where it takes the check apart ([check[0]], [check[1:]]), on every host
    and in every context, and returns no boolean. *)
Theorem IsAvailable_empty_argv_panics `{!json.Codec types.Manifest} host ctx w :
  unmarshalTemplate (json.Object [("check", json.Array [json.Array []])]) zeroTemplate
    = (emptyArgv, None)
  ∧ IsAvailable host emptyArgv ctx w = (Panics (SliceBoundsOutOfRange 1 0), w).
Proof. split; reflexivity. Qed.

(** X3. Without a check that is an empty argument vector, [IsAvailable]
    returns a boolean whenever the context becomes done at some instant, and
    whenever each of its probes, once started, exits; it does not panic, and
    it does not wait for ever. *)
Lemma IsAvailable_returns host t ctx w :
  (∀ check, check ∈ elems (Check t) → elems check ≠ []) →
  is_Some (context.DoneAt ctx)
  ∨ (∀ check name args t0 p,
       check ∈ elems (Check t) → elems check = name :: args →
       host name args t0 = Some p → is_Some (exec.duration p)) →
  ∃ b w', IsAvailable host t ctx w = (Returns b, w').
Proof.
  intros Hall Hends. unfold IsAvailable.
  pose proof (IsAvailable_range_total host ctx (elems (Check t)) w) as Htotal.
  destruct (IsAvailable_range host ctx (elems (Check t)) w) as [[b|p|] w']; cbn [fst] in Htotal.
  - by exists b, w'.
  - destruct Htotal as [_ (check & Hin & Hempty)]. by destruct (Hall check Hin).
  - destruct Htotal as [Hctx (check & name & args & t0 & p & Hin & Hargv & Hp & Hd)].
    destruct Hends as [Hdone|Hends].
    + rewrite Hctx in Hdone. by destruct Hdone.
    + specialize (Hends _ _ _ _ _ Hin Hargv Hp). rewrite Hd in Hends. by destruct Hends.
Qed.

(** C9 as stated fails: with an empty check list, a call under a context
    that is canceled from the start reports the template available. *)
Lemma IsAvailable_canceled_no_checks :
  context.Done (context.WithCancel 0) (now initial) = true
  ∧ IsAvailable exampleHost noChecks (context.WithCancel 0) initial = (Returns true, initial).
Proof. split; reflexivity. Qed.

(** C9, amended. Let the context become done at the instant [c], no later
    than the instant at which the probes up to position [i] would be over
    if nothing canceled them (so before or during one of them; probes of
    which one never exits are never over), and let none of these probes be
    an empty argument vector. Then [IsAvailable] returns [false], and the
    commands run are the first [k] probes for some [k <= i + 1]: no probe
    after position [i] is started. *)
Theorem IsAvailable_canceled host t ctx w i c :
  context.DoneAt ctx = Some c →
  i < length (elems (Check t)) →
  (∀ j check, j ≤ i → elems (Check t) !! j = Some check → elems check ≠ []) →
  (IsAvailable_range host context.Background (take (S i) (elems (Check t))) w).1 = Blocks
  ∨ c ≤ now (IsAvailable_range host context.Background (take (S i) (elems (Check t))) w).2 →
  ∃ w' k, IsAvailable host t ctx w = (Returns false, w')
          ∧ k ≤ S i
          ∧ ran w' = ran w ++ commandsOf ctx (take k (elems (Check t))).
Proof.
  intros Hctx Hi Hargv Hc. unfold IsAvailable.
  destruct (IsAvailable_range_canceled host ctx c (take (S i) (elems (Check t))) w w)
    as (w' & k & Hrange & Hk & Hran); [done| | |done|done|].
  - destruct (elems (Check t)); [simpl in Hi; lia|done].
  - apply Forall_lookup. intros j check Hj.
    apply lookup_take_Some in Hj as [Hj Hlt]. apply (Hargv j); [lia|done].
  - rewrite length_take in Hk.
    exists w', k. split; [by eapply IsAvailable_range_take_false|]. split; [lia|].
    rewrite Hran, take_take. by replace (k `min` S i) with k by lia.
Qed.

Lemma IsAvailable_canceled_witness :
  ∃ w' k, IsAvailable exampleHost probeMake (context.WithCancel 3) initial = (Returns false, w')
          ∧ k ≤ 2
          ∧ ran w' = ran initial ++ commandsOf (context.WithCancel 3)
                                      (take k (elems (Check probeMake))).
Proof.
  apply (IsAvailable_canceled exampleHost probeMake (context.WithCancel 3) initial 1 3).
  - reflexivity.
  - simpl. lia.
  - intros j check _ Hj. destruct j as [|[|[|j]]]; simpl in Hj; by simplify_eq.
  - right. simpl. lia.
Defined.

Lemma IsAvailable_returns_witness :
  (∃ b w', IsAvailable stuckHost probePython (context.WithDeadline 7) initial = (Returns b, w'))
  ∧ ∃ b w', IsAvailable exampleHost probePython context.Background initial = (Returns b, w').
Proof.
  split.
  - apply (IsAvailable_returns stuckHost probePython (context.WithDeadline 7) initial).
    + intros check Hcheck. simpl in Hcheck.
      repeat (apply elem_of_cons in Hcheck as [->|Hcheck]; [discriminate|]).
      by apply elem_of_nil in Hcheck.
    + left. by eexists.
  - apply (IsAvailable_returns exampleHost probePython context.Background initial).
    + intros check Hcheck. simpl in Hcheck.
      repeat (apply elem_of_cons in Hcheck as [->|Hcheck]; [discriminate|]).
      by apply elem_of_nil in Hcheck.
    + right. intros check name args t0 p _ _ Hp. unfold exampleHost in Hp.
      repeat case_match; simplify_eq; by eexists.
Defined.

(** ** Further properties of the catalog *)

(** X4. The walk of a root that exists cannot fail: [mustEmbed] panics only for
    a root that is no valid path or that the asset tree does not hold. *)
Lemma mustEmbed_total assets root sub d :
  fs.Sub assets root = Ok sub →
  fs.StatRoot sub = Ok d →
  ∃ out, mustEmbed assets root = Returns out.
Proof.
  intros Hsub Hstat. unfold mustEmbed, fs.WalkDir. rewrite Hsub, Hstat.
  destruct (walkDir_mustEmbed d "." ∅) as (out & -> & _). by exists out.
Qed.

Lemma mustEmbed_total_witness :
  ∃ out, mustEmbed exampleAssets "assets/python" = Returns out.
Proof.
  apply (mustEmbed_total exampleAssets "assets/python"
           {| fs.fsys := exampleAssets; fs.dir := ["assets"; "python"] |}
           (fs.Dir [("Makefile", fs.File "install:"); ("app.py", fs.File "import sys");
                    ("requirements.txt", fs.File EmptyString)]));
    reflexivity.
Defined.

(** X5. The embedded catalog holds the four starter kits, and each of their
    manifests has the defaults: a time limit of one second, a payload of at
    most 8192 bytes, and the JSON content type among the output headers. *)
Lemma ListEmbedded_catalog assets emb :
  ListEmbedded assets = Returns emb →
  dom emb = {[ "Python"; "Node JS"; "PHP"; "Nim" ]}
  ∧ ∀ name t, emb !! name = Some t →
      types.TimeLimit (Manifest t) = time.Second
      ∧ types.MaximumPayload (Manifest t) = 8192%Z
      ∧ types.OutputHeaders (Manifest t) = Some {[ "Content-Type" := "application/json" ]}.
Proof.
  unfold ListEmbedded. destruct (mustEmbed assets "assets/python") as [python|p|]; [|done|done].
  intros [= <-]. split.
  - rewrite !dom_insert_L, dom_empty_L. set_solver.
  - intros name t Hname.
    repeat (apply lookup_insert_Some in Hname as [[_ <-]|[_ Hname]]; [done|]).
    by rewrite lookup_empty in Hname.
Qed.

Lemma ListEmbedded_catalog_witness :
  ListEmbedded exampleAssets = Returns exampleEmbedded
  ∧ dom exampleEmbedded = {[ "Python"; "Node JS"; "PHP"; "Nim" ]}.
Proof.
  split; [vm_compute; reflexivity|].
  apply (ListEmbedded_catalog exampleAssets exampleEmbedded). vm_compute; reflexivity.
Defined.

(** X6. The inline file maps of the catalog are stored as written, without the
    trimming [mustEmbed] applies: the Node JS starter kit holds a file whose
    name starts with a dot. *)
Lemma ListEmbedded_dot_file assets emb :
  ListEmbedded assets = Returns emb →
  ∃ t, emb !! "Node JS" = Some t
       ∧ entries (Files t) !! ".cgiignore" = Some "node_modules".
Proof.
  unfold ListEmbedded. destruct (mustEmbed assets "assets/python") as [python|p|]; [|done|done].
  intros [= <-]. eexists. split.
  - rewrite lookup_insert_ne by done. apply lookup_insert_eq.
  - simpl. by repeat (rewrite lookup_insert_ne by done); rewrite lookup_insert_eq.
Qed.

Lemma ListEmbedded_dot_file_witness :
  ∃ t, exampleEmbedded !! "Node JS" = Some t
       ∧ entries (Files t) !! ".cgiignore" = Some "node_modules".
Proof.
  apply (ListEmbedded_dot_file exampleAssets exampleEmbedded). vm_compute; reflexivity.
Defined.

(** ** The availability checker: what a result tells *)

Section checker_results.
Context (host : exec.Host).

(** What the loop returns tells what the probes did. *)
Lemma IsAvailable_range_inv ctx checks w b w' :
  IsAvailable_range host ctx checks w = (Returns b, w') →
  if b then passes host ctx checks w w'
  else ∃ pre check post name args err w1,
         checks = pre ++ check :: post
         ∧ passes host ctx pre w w1
         ∧ elems check = name :: args
         ∧ run host (exec.CommandContext ctx name args) w1 = (Returns (Some err), w').
Proof.
  revert w. induction checks as [|check checks IH]; intros w; simpl.
  - intros [= <- <-]. constructor.
  - destruct (elems check) as [|name args] eqn:Hargv; [done|].
    unfold internal.SetFlags.
    destruct (run host (exec.CommandContext ctx name args) w) as [[[err|]|p|] w1] eqn:Hrun;
      [| |done|done].
    + intros [= <- <-]. exists [], check, checks, name, args, err, w.
      split; [done|]. split; [constructor|done].
    + intros Hrange. specialize (IH _ Hrange). destruct b.
      * by econstructor.
      * destruct IH as (pre & check' & post & name' & args' & err & w2 & -> & Hpre & ? & ?).
        exists (check :: pre), check', post, name', args', err, w2.
        split; [done|]. split; [by econstructor|done].
Qed.

(** The commands the loop runs are the commands of the first checks, in
    their order; when it returns [true], of all the checks. *)
Lemma IsAvailable_range_prefix ctx checks w :
  ∃ k, k ≤ length checks
       ∧ ran (IsAvailable_range host ctx checks w).2 = ran w ++ commandsOf ctx (take k checks)
       ∧ ((IsAvailable_range host ctx checks w).1 = Returns true → k = length checks).
Proof.
  assert (∀ l, commandsOf ctx (take 0 l) = []) as Hzero by done.
  revert w. induction checks as [|check checks IH]; intros w; cbn [IsAvailable_range].
  - exists 0. split; [done|]. split; [|done].
    by rewrite Hzero, (right_id_L [] (++)).
  - destruct (elems check) as [|name args] eqn:Hargv.
    + exists 0. split; [lia|]. split; [|done].
      by rewrite Hzero, (right_id_L [] (++)).
    + unfold internal.SetFlags.
      assert (∀ w1, ran w1 = ran w ++ [exec.CommandContext ctx name args] →
                ran w1 = ran w ++ commandsOf ctx (take 1 (check :: checks))) as Hone.
      { intros w1 ->. change (take 1 (check :: checks)) with (check :: take 0 checks).
        by rewrite (commandsOf_cons _ _ _ _ (take 0 checks) Hargv), Hzero. }
      destruct (run host (exec.CommandContext ctx name args) w) as [[[err|]|p|] w1] eqn:Hrun.
      * exists 1. split; [simpl; lia|]. split; [|done]. cbn [fst snd].
        apply Hone. by eapply run_ran.
      * destruct (IH w1) as (k & Hk & Hran & Htrue).
        exists (S k). split; [simpl; lia|].
        split; [|intros Hr; simpl; f_equal; by apply Htrue].
        rewrite Hran, (run_ran _ _ _ _ _ Hrun).
        change (take (S k) (check :: checks)) with (check :: take k checks).
        rewrite (commandsOf_cons _ _ _ _ (take k checks) Hargv).
        by rewrite <- (assoc_L (++)).
      * exists 1. split; [simpl; lia|]. split; [|done]. cbn [fst snd].
        apply Hone. by eapply run_ran.
      * exists 1. split; [simpl; lia|]. split; [|done]. cbn [fst snd].
        apply Hone. by eapply run_ran.
Qed.

(** [Run] does not return before it is called; under a context that
    becomes done at [c] it does return, by then, or at once when called
    later; and it returns nil only before [c]. *)
Lemma Run_instants cmd t0 r t1 :
  exec.Run host cmd t0 = (r, t1) →
  t0 ≤ t1
  ∧ ∀ c, context.DoneAt (exec.ctx cmd) = Some c →
         t1 ≤ t0 `max` c ∧ r ≠ Blocks ∧ (r = Returns None → t1 < c).
Proof.
  unfold exec.Run, context.Done.
  destruct (context.DoneAt (exec.ctx cmd)) as [c|].
  - destruct (c <=? t0) eqn:Hdone.
    { apply Nat.leb_le in Hdone. intros [= <- <-]. split; [done|].
      intros c' [= <-]. split; [lia|done]. }
    apply Nat.leb_gt in Hdone.
    destruct (host (exec.Path cmd) (exec.Args cmd) t0) as [p|].
    2:{ intros [= <- <-]. split; [done|]. intros c' [= <-]. split; [lia|done]. }
    destruct (exec.duration p) as [d|].
    2:{ intros [= <- <-]. split; [lia|]. intros c' [= <-]. split; [lia|done]. }
    destruct (c <=? t0 + d) eqn:Hkill.
    { apply Nat.leb_le in Hkill. intros [= <- <-]. split; [lia|].
      intros c' [= <-]. split; [lia|done]. }
    apply Nat.leb_gt in Hkill. intros [= <- <-]. split; [lia|].
    intros c' [= <-]. split; [lia|]. split; [|lia].
    unfold exec.exitError. by destruct (exec.exitCode p =? 0)%Z.
  - destruct (host (exec.Path cmd) (exec.Args cmd) t0) as [p|];
      [destruct (exec.duration p)|]; intros [= <- <-]; (split; [lia|done]).
Qed.

Lemma IsAvailable_range_instants ctx checks w :
  now w ≤ now (IsAvailable_range host ctx checks w).2
  ∧ ∀ c, context.DoneAt ctx = Some c →
         now (IsAvailable_range host ctx checks w).2 ≤ now w `max` c
         ∧ (IsAvailable_range host ctx checks w).1 ≠ Blocks.
Proof.
  revert w. induction checks as [|check checks IH]; intros w; cbn [IsAvailable_range].
  - split; [done|]. intros; split; [simpl; lia|done].
  - destruct (elems check) as [|name args]; [split; [done|intros; split; [simpl; lia|done]]|].
    unfold internal.SetFlags, run.
    destruct (exec.Run host (exec.CommandContext ctx name args) (now w)) as [r t1] eqn:Hrun.
    destruct (Run_instants _ _ _ _ Hrun) as [Hle Hctx]. simpl in Hctx.
    destruct r as [[err|]|p|]; cbn [fst snd now].
    + split; [done|]. intros c Hc. destruct (Hctx c Hc) as (? & ? & ?). done.
    + match goal with |- context [IsAvailable_range host ctx checks ?w1] =>
        destruct (IH w1) as [Hle' Hctx'] end.
      cbn [now] in *. split; [lia|].
      intros c Hc. destruct (Hctx c Hc) as (? & ? & ?). destruct (Hctx' c Hc) as [? ?].
      split; [lia|done].
    + split; [done|]. intros c Hc. destruct (Hctx c Hc) as (? & ? & ?). done.
    + split; [done|]. intros c Hc. destruct (Hctx c Hc) as (? & ? & ?). done.
Qed.

(** The loop waits for ever exactly at a probe that never exits, reached
    through probes that pass, under a context that never becomes done. *)
Lemma IsAvailable_range_blocks ctx checks w w' :
  IsAvailable_range host ctx checks w = (Blocks, w') ↔
  context.DoneAt ctx = None
  ∧ ∃ pre check post name args w1 p,
      checks = pre ++ check :: post
      ∧ passes host ctx pre w w1
      ∧ elems check = name :: args
      ∧ host name args (now w1) = Some p ∧ exec.duration p = None
      ∧ w' = {| now := now w1; ran := ran w1 ++ [exec.CommandContext ctx name args] |}.
Proof.
  split.
  - revert w. induction checks as [|check checks IH]; intros w; cbn [IsAvailable_range]; [done|].
    destruct (elems check) as [|name args] eqn:Hargv; [done|].
    unfold internal.SetFlags.
    destruct (run host (exec.CommandContext ctx name args) w) as [[[err|]|p|] w1] eqn:Hrun;
      [done| | |].
    + intros Hrange. destruct (IH _ Hrange)
        as (Hctx & pre & check' & post & name' & args' & w2 & p & -> & Hpre & ? & ? & ? & ?).
      split; [done|]. exists (check :: pre), check', post, name', args', w2, p.
      split; [done|]. split; [by econstructor|done].
    + unfold run in Hrun.
      destruct (exec.Run host (exec.CommandContext ctx name args) (now w)) as [r t1] eqn:HRun.
      apply Run_outcome in HRun. by injection Hrun as -> _.
    + intros [= <-]. unfold run in Hrun.
      destruct (exec.Run host (exec.CommandContext ctx name args) (now w)) as [r t1] eqn:HRun.
      injection Hrun as -> <-. pose proof (Run_outcome _ _ _ _ _ HRun) as [Hctx (p & Hp & Hd)].
      split; [done|]. exists [], check, checks, name, args, w, p.
      split; [done|]. split; [constructor|]. split; [done|]. split; [done|]. split; [done|].
      f_equal. revert HRun. unfold exec.Run, context.Done.
      cbn [exec.CommandContext exec.ctx exec.Path exec.Args] in *.
      rewrite Hctx, Hp, Hd. by intros [= <-].
  - intros (Hctx & pre & check & post & name & args & w1 & p & -> & Hpre & Hargv & Hp & Hd & ->).
    rewrite (IsAvailable_range_passes _ _ _ _ _ _ Hpre). cbn [IsAvailable_range].
    rewrite Hargv. unfold internal.SetFlags, run, exec.Run, context.Done.
    cbn [exec.CommandContext exec.ctx exec.Path exec.Args].
    by rewrite Hctx, Hp, Hd.
Qed.

End checker_results.

(** X7. What [IsAvailable] returns tells what happened: [true] only when
    every probe of the check list was run and succeeded; [false] only when
    the probes before some position succeeded and the [Run] of the probe at
    that position returned an error, after which the call returned. *)
Theorem IsAvailable_result host t ctx w b w' :
  IsAvailable host t ctx w = (Returns b, w') →
  if b then passes host ctx (elems (Check t)) w w'
  else ∃ pre check post name args err w1,
         elems (Check t) = pre ++ check :: post
         ∧ passes host ctx pre w w1
         ∧ elems check = name :: args
         ∧ run host (exec.CommandContext ctx name args) w1 = (Returns (Some err), w').
Proof. apply IsAvailable_range_inv. Qed.

Lemma IsAvailable_result_witness :
  ∃ pre check post name args err w1,
    elems (Check probePython) = pre ++ check :: post
    ∧ passes exampleHost context.Background pre initial w1
    ∧ elems check = name :: args
    ∧ run exampleHost (exec.CommandContext context.Background name args) w1
      = (Returns (Some err),
         {| now := 5;
            ran := [exec.CommandContext context.Background "which" ["make"];
                    exec.CommandContext context.Background "which" ["python3"]] |}).
Proof.
  apply (IsAvailable_result exampleHost probePython context.Background initial false).
  reflexivity.
Defined.

(** X8. Whatever [IsAvailable] returns, and also when it panics or waits
    for ever, the commands it has run are the first [k] probes of the check list, each
    once, in the order of the list and under the context of the call; when
    it returns [true], [k] is the length of the list. *)
Theorem IsAvailable_runs_in_order host t ctx w :
  ∃ k, k ≤ length (elems (Check t))
       ∧ ran (IsAvailable host t ctx w).2
         = ran w ++ commandsOf ctx (take k (elems (Check t)))
       ∧ ((IsAvailable host t ctx w).1 = Returns true → k = length (elems (Check t))).
Proof. apply IsAvailable_range_prefix. Qed.

(** X9. The clock does not go back during [IsAvailable], and under a context
    that becomes done at the instant [c] the call does not wait for ever: it
    is over by [c], or, when made after [c], at the instant it is made. *)
Theorem IsAvailable_returns_by_deadline host t ctx w c :
  context.DoneAt ctx = Some c →
  now w ≤ now (IsAvailable host t ctx w).2
  ∧ now (IsAvailable host t ctx w).2 ≤ now w `max` c
  ∧ (IsAvailable host t ctx w).1 ≠ Blocks.
Proof.
  intros Hc. destruct (IsAvailable_range_instants host ctx (elems (Check t)) w) as [Hle Hctx].
  split; [exact Hle|]. by apply Hctx.
Qed.

Lemma IsAvailable_returns_by_deadline_witness :
  now initial ≤ now (IsAvailable stuckHost probeMake (context.WithDeadline 3) initial).2
  ∧ now (IsAvailable stuckHost probeMake (context.WithDeadline 3) initial).2
    ≤ now initial `max` 3
  ∧ (IsAvailable stuckHost probeMake (context.WithDeadline 3) initial).1 ≠ Blocks.
Proof.
  apply (IsAvailable_returns_by_deadline stuckHost probeMake (context.WithDeadline 3)
           initial 3).
  reflexivity.
Defined.

(** X20. [IsAvailable] waits for ever exactly when the context never becomes
    done and, the probes before it having passed, a probe is started that
    never exits; the call is then stuck in the [Run] of that probe, no
    later probe having been started. *)
Theorem IsAvailable_blocks_iff host t ctx w w' :
  IsAvailable host t ctx w = (Blocks, w') ↔
  context.DoneAt ctx = None
  ∧ ∃ pre check post name args w1 p,
      elems (Check t) = pre ++ check :: post
      ∧ passes host ctx pre w w1
      ∧ elems check = name :: args
      ∧ host name args (now w1) = Some p ∧ exec.duration p = None
      ∧ w' = {| now := now w1; ran := ran w1 ++ [exec.CommandContext ctx name args] |}.
Proof. apply IsAvailable_range_blocks. Qed.

Lemma IsAvailable_blocks_iff_witness :
  IsAvailable stuckHost probeMake context.Background initial
  = (Blocks,
     {| now := 0; ran := [exec.CommandContext context.Background "which" ["make"]] |}).
Proof.
  apply (IsAvailable_blocks_iff stuckHost probeMake context.Background initial).
  split; [reflexivity|].
  exists [], (Some ["which"; "make"]), [Some ["which"; "make"]], "which", ["make"], initial,
    {| exec.duration := None; exec.exitCode := 0 |}.
  split; [reflexivity|]. split; [constructor|]. repeat (split; [reflexivity|]). reflexivity.
Defined.

(** ** The asset walk over well-named trees *)

Lemma lastByte_app_cons s c r :
  lastByte (s +:+ String c r) = lastByte (String c r).
Proof.
  induction s as [|a s IH]; [done|].
  change (lastByte (String a (s +:+ String c r)) = lastByte (String c r)).
  cbn [lastByte]. rewrite IH. simpl. by destruct (lastByte r).
Qed.

(** A string whose last byte is outside the cutset is not trimmed at its
    end, and comes back non-empty. *)
Lemma TrimRight_id s cutset l :
  lastByte s = Some l → strings.inCutset cutset l = false →
  strings.TrimRight s cutset = s.
Proof.
  induction s as [|a s IH]; [done|]. cbn [lastByte strings.TrimRight].
  destruct (lastByte s) as [l'|] eqn:Hlast.
  - intros [= ->] Hl. rewrite (IH eq_refl Hl). by destruct s.
  - intros [= ->] Hl. destruct s; [|simpl in Hlast; by destruct (lastByte s)].
    simpl. by rewrite Hl.
Qed.

Lemma inCutset_dot_slash c :
  Ascii.eqb c "."%char = false → Ascii.eqb c "/"%char = false →
  strings.inCutset "/." c = false.
Proof. intros H1 H2. unfold strings.inCutset. simpl. by rewrite H1, H2. Qed.

Lemma Trim_tidy s : tidy s → strings.Trim s "/." = s.
Proof.
  intros [(c & r & -> & Hc) (l & Hl & Hlc)]. unfold strings.Trim.
  rewrite (TrimRight_id _ _ _ Hl Hlc). simpl. by rewrite Hc.
Qed.

Lemma noSlash_lastByte n l : noSlash n = true → lastByte n = Some l → Ascii.eqb l "/"%char = false.
Proof.
  induction n as [|a n IH]; [done|]. cbn [noSlash lastByte].
  intros [Ha Hn]%andb_true_iff. destruct (lastByte n) as [l'|].
  - intros [= ->]. by apply IH.
  - intros [= ->]. by apply negb_true_iff.
Qed.

Lemma cleanName_tidy n : cleanName n = true → tidy n.
Proof.
  unfold cleanName. intros [[Hns Hfirst]%andb_true_iff Hlast]%andb_true_iff.
  destruct n as [|c r]; [done|]. apply negb_true_iff in Hfirst.
  destruct (lastByte (String c r)) as [l|] eqn:Hl; [|done]. apply negb_true_iff in Hlast.
  split.
  - exists c, r. split; [done|]. apply inCutset_dot_slash; [done|].
    simpl in Hns. apply andb_true_iff in Hns as [Hc _]. by apply negb_true_iff.
  - exists l. split; [done|]. apply inCutset_dot_slash; [done|].
    by eapply noSlash_lastByte.
Qed.

(** Below a tidy name, [path.Join] appends a slash and the entry, and the
    result is tidy again. *)
Lemma Join_tidy name n :
  tidy name → cleanName n = true →
  path.Join name n = name +:+ "/" +:+ n ∧ tidy (path.Join name n).
Proof.
  intros [(c & r & -> & Hc) (l & Hl & Hlc)] Hn.
  assert (path.Join (String c r) n = String c r +:+ "/" +:+ n) as Hjoin.
  { unfold path.Join. destruct (String.eqb (String c r) ".") eqn:Heq; [|done].
    apply String.eqb_eq in Heq. injection Heq as -> ->. by vm_compute in Hc. }
  split; [done|]. rewrite Hjoin.
  destruct (cleanName_tidy _ Hn) as [(c' & r' & -> & Hc') (l' & Hl' & Hlc')].
  split.
  - by exists c, (r +:+ "/" +:+ String c' r').
  - exists l'. split; [|done].
    change (String c r +:+ "/" +:+ String c' r')
      with (String c r +:+ String "/" (String c' r')).
    rewrite lastByte_app_cons.
    change (lastByte (String "/" (String c' r')))
      with (match lastByte (String c' r') with
            | None => Some "/"%char
            | Some l => Some l
            end).
    by rewrite Hl'.
Qed.

Lemma Join_dot n : path.Join "." n = n.
Proof. done. Qed.

(** The walk name of a path of clean names is tidy. *)
Lemma foldl_Join_tidy name elems :
  tidy name → Forall (λ n, cleanName n = true) elems → tidy (foldl path.Join name elems).
Proof.
  intros Hname Helems. revert name Hname.
  induction Helems as [|n elems Hn _ IH]; intros name Hname; [done|].
  simpl. apply IH. by apply Join_tidy.
Qed.

Lemma walkName_tidy n elems :
  Forall (λ n, cleanName n = true) (n :: elems) → tidy (fs.walkName (n :: elems)).
Proof.
  intros [Hn Helems]%Forall_cons. unfold fs.walkName.
  change (foldl path.Join "." (n :: elems)) with (foldl path.Join n elems).
  apply foldl_Join_tidy; [|done]. by apply cleanName_tidy.
Qed.

(** [path.split] takes a joined path apart again. *)
Lemma split_nonempty s : path.split s ≠ [].
Proof.
  destruct s as [|c r]; [done|]. simpl.
  destruct (Ascii.eqb c "/"); [done|]. by destruct (path.split r).
Qed.

Lemma split_noSlash n : noSlash n = true → path.split n = [n].
Proof.
  induction n as [|c r IH]; [done|]. simpl.
  intros [Hc Hr]%andb_true_iff. apply negb_true_iff in Hc. by rewrite Hc, (IH Hr).
Qed.

Lemma split_app_slash s n :
  noSlash n = true → path.split (s +:+ "/" +:+ n) = path.split s ++ [n].
Proof.
  intros Hn. induction s as [|c r IH].
  - change (path.split (String "/" n) = [EmptyString; n]). simpl.
    by rewrite (split_noSlash _ Hn).
  - change (path.split (String c (r +:+ "/" +:+ n)) = path.split (String c r) ++ [n]).
    simpl. rewrite IH. destruct (Ascii.eqb c "/"); [done|].
    pose proof (split_nonempty r). by destruct (path.split r).
Qed.

Lemma cleanName_noSlash n : cleanName n = true → noSlash n = true.
Proof. unfold cleanName. by intros [[? _]%andb_true_iff _]%andb_true_iff. Qed.

Lemma split_foldl_Join name elems :
  tidy name → Forall (λ n, cleanName n = true) elems →
  path.split (foldl path.Join name elems) = path.split name ++ elems.
Proof.
  intros Hname Helems. revert name Hname.
  induction Helems as [|n elems Hn _ IH]; intros name Hname.
  - by rewrite (right_id_L [] (++)).
  - simpl. destruct (Join_tidy _ _ Hname Hn) as [Hjoin Htidy].
    rewrite (IH _ Htidy), Hjoin, split_app_slash by by apply cleanName_noSlash.
    by rewrite <- (assoc_L (++)).
Qed.

Lemma split_walkName n elems :
  Forall (λ n, cleanName n = true) (n :: elems) →
  path.split (fs.walkName (n :: elems)) = n :: elems.
Proof.
  intros [Hn Helems]%Forall_cons. unfold fs.walkName.
  change (foldl path.Join "." (n :: elems)) with (foldl path.Join n elems).
  rewrite split_foldl_Join by (done || by apply cleanName_tidy).
  by rewrite (split_noSlash _ (cleanName_noSlash _ Hn)).
Qed.

(** In a well-named tree a path leads to one node, and its names are clean. *)
Lemma NoDup_fst_functional {A} (l : list (string * A)) n x y :
  NoDup l.*1 → (n, x) ∈ l → (n, y) ∈ l → x = y.
Proof.
  induction l as [|[n' z] l IH]; intros Hnd Hx Hy; [by apply elem_of_nil in Hx|].
  cbn [fmap list_fmap fst] in Hnd. apply NoDup_cons in Hnd as [Hn' Hnd].
  apply elem_of_cons in Hx as [Hx|Hx]; apply elem_of_cons in Hy as [Hy|Hy].
  - congruence.
  - injection Hx as -> ->. destruct Hn'. apply list_elem_of_fmap.
    eexists; split; [|exact Hy]; done.
  - injection Hy as -> ->. destruct Hn'. apply list_elem_of_fmap.
    eexists; split; [|exact Hx]; done.
  - by apply IH.
Qed.

Lemma reaches_wellNamed d elems d' :
  wellNamed d → fs.reaches d elems d' →
  Forall (λ n, cleanName n = true) elems
  ∧ wellNamed d'
  ∧ ∀ d'', fs.reaches d elems d'' → d'' = d'.
Proof.
  intros Hwn Hr. induction Hr as [d|es n d1 elems d' Hin Hr IH].
  - split; [done|]. split; [done|]. intros d'' Hr. by inversion Hr.
  - inversion Hwn as [|es' Hnd Hall]; subst.
    pose proof (proj1 (Forall_forall _ _) Hall _ Hin) as [Hn Hd1]. simpl in *.
    destruct (IH Hd1) as (Helems & Hd' & Hfun).
    split; [by constructor|]. split; [done|].
    intros d'' Hr'. inversion Hr' as [|es' n' d2 elems' d''' Hin' Hr'']; subst.
    rewrite (NoDup_fst_functional _ _ _ _ Hnd Hin' Hin) in Hr''. by apply Hfun.
Qed.

(** X10. Over a root directory whose tree is well named (clean names,
    different from one another in every directory), [mustEmbed] loses and
    renames nothing: the map it returns holds [content] under a key exactly
    when the tree holds a file with that content at the path whose walk
    name (the names joined by slashes) is the key. *)
Theorem mustEmbed_well_named assets root sub es out :
  fs.Sub assets root = Ok sub →
  fs.StatRoot sub = Ok (fs.Dir es) →
  wellNamed (fs.Dir es) →
  mustEmbed assets root = Returns out →
  ∀ p content,
    out !! p = Some content
    ↔ ∃ elems, fs.reaches (fs.Dir es) elems (fs.File content) ∧ p = fs.walkName elems.
Proof.
  intros Hsub Hstat Hwn Hm p content.
  destruct (mustEmbed_returns _ _ _ Hm) as (sub' & d' & Hsub' & Hstat' & Hw).
  rewrite Hsub in Hsub'. injection Hsub' as <-.
  rewrite Hstat in Hstat'. injection Hstat' as <-.
  destruct (walkDir_mustEmbed (fs.Dir es) "." ∅) as (s' & Hw' & Hsound & Hcomplete & _).
  rewrite Hw in Hw'. injection Hw' as <-.
  assert (∀ elems v, fs.reaches (fs.Dir es) elems (fs.File v) →
            strings.Trim (fs.walkName elems) "/." = fs.walkName elems
            ∧ path.split (fs.walkName elems) = elems) as Hname.
  { intros elems v Hr. destruct (reaches_wellNamed _ _ _ Hwn Hr) as (Helems & _ & _).
    destruct elems as [|n elems]; [by inversion Hr|].
    split; [by apply Trim_tidy, walkName_tidy|by apply split_walkName]. }
  split.
  - intros Hp. destruct (Hsound p content Hp) as [Hempty|(elems & Hr & ->)].
    { by rewrite lookup_empty in Hempty. }
    exists elems. split; [done|]. by apply (Hname elems content).
  - intros (elems & Hr & ->).
    destruct (Hcomplete elems content Hr) as [v Hv].
    destruct (Hname elems content Hr) as [Htrim Hsplit].
    change (foldl path.Join "." elems) with (fs.walkName elems) in Hv.
    rewrite Htrim in Hv. rewrite Hv. f_equal.
    destruct (Hsound _ _ Hv) as [Hempty|(elems' & Hr' & Heq)].
    { by rewrite lookup_empty in Hempty. }
    destruct (Hname elems' v Hr') as [Htrim' Hsplit'].
    change (foldl path.Join "." elems') with (fs.walkName elems') in Heq.
    rewrite Htrim' in Heq.
    assert (elems' = elems) as -> by (by rewrite <- Hsplit', <- Heq, Hsplit).
    destruct (reaches_wellNamed _ _ _ Hwn Hr) as (_ & _ & Hfun).
    by injection (Hfun _ Hr').
Qed.

Lemma mustEmbed_well_named_witness :
  ({[ "Makefile" := "install:"; "app.py" := "import sys";
      "requirements.txt" := EmptyString ]} : gmap string string) !! "app.py"
  = Some "import sys"
  ↔ ∃ elems,
      fs.reaches (fs.Dir [("Makefile", fs.File "install:"); ("app.py", fs.File "import sys");
                          ("requirements.txt", fs.File EmptyString)])
                 elems (fs.File "import sys")
      ∧ "app.py" = fs.walkName elems.
Proof.
  apply (mustEmbed_well_named exampleAssets "assets/python"
           {| fs.fsys := exampleAssets; fs.dir := ["assets"; "python"] |}
           [("Makefile", fs.File "install:"); ("app.py", fs.File "import sys");
            ("requirements.txt", fs.File EmptyString)]
           {[ "Makefile" := "install:"; "app.py" := "import sys";
              "requirements.txt" := EmptyString ]}).
  - reflexivity.
  - reflexivity.
  - apply wellNamed_Dir.
    + apply (bool_decide_unpack _). vm_compute. exact I.
    + repeat (apply Forall_cons; split; [split; [reflexivity|exact (wellNamed_File _)]|]).
      constructor.
  - vm_compute; reflexivity.
Defined.

(** ** The directory loader and the merger: names *)

Lemma length_append (a b : string) :
  String.length (a +:+ b) = String.length a + String.length b.
Proof.
  induction a as [|c a IH]; [done|].
  change (S (String.length (a +:+ b)) = S (String.length a + String.length b)).
  by rewrite IH.
Qed.

Lemma substring_append_l (a b : string) :
  String.substring 0 (String.length a) (a +:+ b) = a.
Proof.
  induction a as [|c a IH]; [by destruct b|].
  change (String c (String.substring 0 (String.length a) (a +:+ b)) = String c a).
  by rewrite IH.
Qed.

Lemma substring_append_r (a b : string) :
  String.substring (String.length a) (String.length b) (a +:+ b) = b.
Proof.
  induction a as [|c a IH]; [apply substring_all|].
  change (String.substring (String.length a) (String.length b) (a +:+ b) = b).
  exact IH.
Qed.

Lemma append_inv_tail (a b s : string) : a +:+ s = b +:+ s → a = b.
Proof.
  intros Heq. assert (String.length a = String.length b) as Hlen.
  { apply (f_equal String.length) in Heq. rewrite !length_append in Heq. lia. }
  rewrite <- (substring_append_l a s), <- (substring_append_l b s). by rewrite Heq, Hlen.
Qed.

(** A name and the suffix: the suffix is found, and the cut gives the name. *)
Lemma HasSuffix_append name suffix :
  strings.HasSuffix (name +:+ suffix) suffix = true
  ∧ slice_to (name +:+ suffix) (String.length (name +:+ suffix) - String.length suffix) = name.
Proof.
  unfold strings.HasSuffix, slice_to. rewrite length_append.
  replace (String.length name + String.length suffix - String.length suffix)
    with (String.length name) by lia.
  rewrite substring_append_l, substring_append_r. split; [|done].
  apply andb_true_iff. split; [apply Nat.leb_le; lia|apply String.eqb_refl].
Qed.

Section loader_names.
Context `{!json.Codec types.Manifest} (disk : os.FileSystem).

(** The names the loop of [ListDir] fills in are the names of the
    descriptors, without the suffix. *)
Lemma ListDir_range_names dir items ans ext :
  ListDir_range disk dir items ans = (Some ext, None) →
  ∀ name, is_Some (ext !! name)
          ↔ is_Some (ans !! name)
            ∨ ∃ item, item ∈ items ∧ qualifies item = true
                      ∧ os.Name item = name +:+ suffix.
Proof.
  revert ans. induction items as [|item items IH]; intros ans; simpl.
  - intros [= <-] name. split; [by left|].
    intros [?|(item & Hin & _)]; [done|]. by apply elem_of_nil in Hin.
  - destruct (os.IsDir item || negb (strings.HasSuffix (os.Name item) suffix)) eqn:Hq.
    + intros Hrange name. rewrite (IH _ Hrange name). split.
      * intros [?|(item' & Hin & ? & ?)]; [by left|]. right. exists item'.
        split; [by right|done].
      * intros [?|(item' & Hin & Hq' & ?)]; [by left|]. right. exists item'.
        apply elem_of_cons in Hin as [->|Hin]; [|done].
        unfold qualifies in Hq'. apply andb_true_iff in Hq' as [Hd Hs].
        apply orb_true_iff in Hq as [Hd'|Hs']; [by rewrite Hd' in Hd|by rewrite Hs in Hs'].
    + apply orb_false_iff in Hq as [Hd Hs]. apply negb_false_iff in Hs.
      destruct (Read disk (filepath.Join dir (os.Name item))) as [err|t [err|]]; [done..|].
      intros Hrange name. rewrite (IH _ Hrange name).
      set (name' := slice_to (os.Name item) (String.length (os.Name item) - String.length suffix)).
      assert (os.Name item = name' +:+ suffix) as Hname by by apply HasSuffix_slice.
      split.
      * intros [Hins|(item' & Hin & ? & ?)].
        -- destruct (decide (name' = name)) as [<-|Hne].
           ++ right. exists item. split; [left|]. split; [|done].
              unfold qualifies. by rewrite Hd, Hs.
           ++ rewrite lookup_insert_ne in Hins by done. by left.
        -- right. exists item'. split; [by right|done].
      * intros [Hans|(item' & Hin & Hq' & Hname')].
        -- left. destruct (decide (name' = name)) as [<-|Hne].
           ++ rewrite lookup_insert_eq. eauto.
           ++ by rewrite lookup_insert_ne.
        -- apply elem_of_cons in Hin as [->|Hin].
           ++ left. rewrite Hname in Hname'. apply append_inv_tail in Hname'.
              rewrite <- Hname', lookup_insert_eq. eauto.
           ++ right. by exists item'.
Qed.


(** The map [List] returns when nothing fails: the entries of the loader
    over the embedded ones. *)
Lemma List_returns assets dir emb ext :
  ListEmbedded assets = Returns emb →
  ListDir disk dir = (Some ext, None) →
  List assets disk dir = Returns (Some (ext ∪ emb), None).
Proof.
  intros Hemb Hdir. unfold List. rewrite Hemb. simpl. rewrite Hdir. simpl.
  by rewrite List_range_union.
Qed.

End loader_names.

(** The embedded catalog is built exactly when the asset tree holds the
    root [assets/python]; building it panics or returns. *)
Lemma ListEmbedded_panics_iff assets :
  ((∃ p, ListEmbedded assets = Panics p) ↔ fs.resolve assets ["assets"; "python"] = None)
  ∧ ListEmbedded assets ≠ Blocks.
Proof.
  unfold ListEmbedded, mustEmbed, fs.WalkDir.
  change (fs.Sub assets "assets/python")
    with (Ok {| fs.fsys := assets; fs.dir := ["assets"; "python"] |} : result fs.subFS).
  unfold fs.StatRoot. cbn [fs.fsys fs.dir].
  destruct (fs.resolve assets ["assets"; "python"]) as [d|].
  - destruct (walkDir_mustEmbed d "." ∅) as (out & -> & _). simpl.
    split; [|done]. split; [by intros [p ?]|done].
  - simpl. split; [|done]. split; [done|]. intros _. by eexists.
Qed.

(** X11. When [ListDir] returns a catalog, its names are exactly the names
    of the entries of the directory that are not directories and end in
    [.json], with that suffix cut off; the letters keep their case. *)
Theorem ListDir_names `{!json.Codec types.Manifest} disk dir items ext name :
  os.ReadDir disk dir = Ok items →
  ListDir disk dir = (Some ext, None) →
  is_Some (ext !! name)
  ↔ ∃ item, item ∈ items ∧ os.IsDir item = false ∧ os.Name item = name +:+ ".json".
Proof.
  intros Hread. unfold ListDir. rewrite Hread. intros Hrange.
  rewrite (ListDir_range_names _ _ _ _ _ Hrange name). split.
  - intros [Hempty|(item & Hin & Hq & Hname)].
    { rewrite lookup_empty in Hempty. by destruct Hempty. }
    exists item. split; [done|]. split; [|done].
    unfold qualifies in Hq. apply andb_true_iff in Hq as [Hd _]. by apply negb_true_iff.
  - intros (item & Hin & Hd & Hname). right. exists item. split; [done|]. split; [|done].
    unfold qualifies. rewrite Hd, Hname. simpl.
    apply (HasSuffix_append name ".json").
Qed.

Lemma ListDir_names_witness :
  (is_Some (({[ "python" := overridePython ]} : gmap string Template) !! "python")
   ↔ ∃ item, item ∈ [ {| os.Name := "python.json"; os.IsDir := false |} ]
             ∧ os.IsDir item = false ∧ os.Name item = "python" +:+ ".json")
  ∧ (is_Some (({[ "python" := overridePython ]} : gmap string Template) !! "Python")
     ↔ ∃ item, item ∈ [ {| os.Name := "python.json"; os.IsDir := false |} ]
               ∧ os.IsDir item = false ∧ os.Name item = "Python" +:+ ".json").
Proof.
  split.
  - apply (ListDir_names (H := exampleCodec) lowercaseDisk "/etc/templates"
             [ {| os.Name := "python.json"; os.IsDir := false |} ]
             {[ "python" := overridePython ]} "python");
      [reflexivity|vm_compute; reflexivity].
  - apply (ListDir_names (H := exampleCodec) lowercaseDisk "/etc/templates"
             [ {| os.Name := "python.json"; os.IsDir := false |} ]
             {[ "python" := overridePython ]} "Python");
      [reflexivity|vm_compute; reflexivity].
Defined.


(** X13. The registry [List] returns holds, for every name, the template
    of the loader when the loader has the name, and else what the embedded
    catalog holds for it: embedded templates that are not overridden stay,
    and nothing else comes in. *)
Theorem List_lookup `{!json.Codec types.Manifest} assets disk dir emb ext :
  ListEmbedded assets = Returns emb →
  ListDir disk dir = (Some ext, None) →
  ∃ merged,
    List assets disk dir = Returns (Some merged, None)
    ∧ ∀ name, merged !! name = match ext !! name with
                               | Some t => Some t
                               | None => emb !! name
                               end.
Proof.
  intros Hemb Hdir. exists (ext ∪ emb). split; [by apply List_returns|].
  intros name. rewrite lookup_union. by destruct (ext !! name), (emb !! name).
Qed.

Lemma List_lookup_witness :
  ∃ merged,
    List (H := exampleCodec) exampleAssets exampleDisk "/etc/templates"
      = Returns (Some merged, None)
    ∧ ∀ name, merged !! name
              = match ({[ "Python" := overridePython ]} : gmap string Template) !! name with
                | Some t => Some t
                | None => exampleEmbedded !! name
                end.
Proof.
  apply (List_lookup (H := exampleCodec) exampleAssets exampleDisk "/etc/templates"
           exampleEmbedded {[ "Python" := overridePython ]});
    vm_compute; reflexivity.
Defined.

(** X14. A name for which the directory holds no descriptor file (the name
    followed by [.json], letter for letter) keeps, in the registry of
    [List], the template of the embedded catalog, or stays absent. *)
Theorem List_keeps_embedded `{!json.Codec types.Manifest} assets disk dir items emb merged name :
  os.ReadDir disk dir = Ok items →
  (∀ item, item ∈ items → os.IsDir item = false → os.Name item ≠ name +:+ ".json") →
  ListEmbedded assets = Returns emb →
  List assets disk dir = Returns (Some merged, None) →
  merged !! name = emb !! name.
Proof.
  intros Hread Hnone Hemb Hlist.
  unfold List in Hlist. rewrite Hemb in Hlist. simpl in Hlist.
  destruct (ListDir disk dir) as [ext' [err|]] eqn:Hdir; [done|].
  unfold ListDir in Hdir. rewrite Hread in Hdir.
  destruct (ListDir_range_shape disk dir items ∅) as [[ext Hrange]|[err Hrange]];
    rewrite Hrange in Hdir; [|done].
  injection Hdir as <-. simpl in Hlist. injection Hlist as <-.
  rewrite List_range_union.
  assert (ext !! name = None) as Hname.
  { apply eq_None_not_Some. intros Hsome.
    apply (ListDir_range_names _ _ _ _ _ Hrange name) in Hsome
      as [Hempty|(item & Hin & Hq & Hitem)].
    - rewrite lookup_empty in Hempty. by destruct Hempty.
    - unfold qualifies in Hq. apply andb_true_iff in Hq as [Hd _].
      apply negb_true_iff in Hd. by apply (Hnone item). }
  by rewrite lookup_union_r.
Qed.

Lemma List_keeps_embedded_witness :
  ∃ merged,
    List (H := exampleCodec) exampleAssets lowercaseDisk "/etc/templates"
      = Returns (Some merged, None)
    ∧ merged !! "python" = Some overridePython
    ∧ merged !! "Python" = exampleEmbedded !! "Python".
Proof.
  exists ({[ "python" := overridePython ]} ∪ exampleEmbedded).
  split; [vm_compute; reflexivity|]. split; [vm_compute; reflexivity|].
  apply (List_keeps_embedded (H := exampleCodec) exampleAssets lowercaseDisk "/etc/templates"
           [ {| os.Name := "python.json"; os.IsDir := false |} ] exampleEmbedded
           ({[ "python" := overridePython ]} ∪ exampleEmbedded) "Python").
  - reflexivity.
  - intros item Hin _. apply list_elem_of_singleton in Hin as ->. discriminate.
  - vm_compute; reflexivity.
  - vm_compute; reflexivity.
Defined.

(** X15. [List] panics exactly when the compiled-in asset tree lacks the
    root [assets/python], whatever the directory it is asked for holds; with
    that root in place it returns. *)
Theorem List_panics_iff `{!json.Codec types.Manifest} assets disk dir :
  ((∃ p, List assets disk dir = Panics p) ↔ fs.resolve assets ["assets"; "python"] = None)
  ∧ List assets disk dir ≠ Blocks.
Proof.
  destruct (ListEmbedded_panics_iff assets) as [<- Hblocks]. unfold List.
  destruct (ListEmbedded assets) as [emb|p|]; simpl; [| |done].
  - destruct (ListDir disk dir) as [ext [err|]]; (split; [|done]);
      (split; intros [p Hp]; done).
  - split; [|done]. split; intros _; by exists p.
Qed.

(** X18. The error [ListDir] and [List] return is the error [Read] gives
    for the first descriptor, in the order of the listing, that cannot be
    read, as it is: it is not wrapped, and descriptors listed after it do not
    matter. *)
Theorem ListDir_first_error `{!json.Codec types.Manifest} assets disk dir emb
    pre item post err :
  os.ReadDir disk dir = Ok (pre ++ item :: post) →
  (∀ item', item' ∈ pre → qualifies item' = true →
     errorOf (Read disk (filepath.Join dir (os.Name item'))) = None) →
  qualifies item = true →
  errorOf (Read disk (filepath.Join dir (os.Name item))) = Some err →
  ListEmbedded assets = Returns emb →
  ListDir disk dir = (None, Some err)
  ∧ List assets disk dir = Returns (None, Some err).
Proof.
  intros Hread Hpre Hq Herr Hemb.
  assert (ListDir disk dir = (None, Some err)) as Hdir.
  { unfold ListDir. rewrite Hread. clear Hread. generalize (∅ : gmap string Template).
    induction pre as [|item' pre IH]; intros ans; simpl.
    - unfold qualifies in Hq. apply andb_true_iff in Hq as [Hd Hs].
      apply negb_true_iff in Hd. rewrite Hd, Hs. simpl.
      destruct (Read disk (filepath.Join dir (os.Name item))) as [e|t [e|]];
        simpl in Herr; by simplify_eq.
    - destruct (os.IsDir item' || negb (strings.HasSuffix (os.Name item') suffix)) eqn:Hq'.
      + apply IH. intros ???. apply Hpre; [by right|done].
      + apply orb_false_iff in Hq' as [Hd Hs]. apply negb_false_iff in Hs.
        assert (qualifies item' = true) as Hqual by (unfold qualifies; by rewrite Hd, Hs).
        specialize (Hpre item' ltac:(left) Hqual) as Hok.
        destruct (Read disk (filepath.Join dir (os.Name item'))) as [e|t [e|]];
          simpl in Hok; [done..|].
        apply IH. intros ???. apply Hpre; [by right|done]. }
  split; [done|]. unfold List. rewrite Hemb. simpl. by rewrite Hdir.
Qed.

Lemma ListDir_first_error_witness :
  ListDir (H := exampleCodec) exampleDisk "/srv/broken"
    = (None, Some (SyntaxError "invalid character"))
  ∧ List (H := exampleCodec) exampleAssets exampleDisk "/srv/broken"
    = Returns (None, Some (SyntaxError "invalid character")).
Proof.
  apply (ListDir_first_error (H := exampleCodec) exampleAssets exampleDisk "/srv/broken"
           exampleEmbedded [] {| os.Name := "bad.json"; os.IsDir := false |} []).
  - reflexivity.
  - intros item' Hin. by apply elem_of_nil in Hin.
  - reflexivity.
  - reflexivity.
  - vm_compute; reflexivity.
Defined.

(** ** The embedded catalog with the checker and the descriptor reader *)

(** Every check of an embedded template names a program. *)
Lemma ListEmbedded_checks assets emb name t :
  ListEmbedded assets = Returns emb →
  emb !! name = Some t →
  ∃ prog args checks, elems (Check t) = Some (prog :: args) :: checks
    ∧ Forall (λ check, elems check ≠ []) (elems (Check t)).
Proof.
  unfold ListEmbedded. destruct (mustEmbed assets "assets/python") as [python|p|]; [|done|done].
  intros [= <-] Hname.
  repeat (apply lookup_insert_Some in Hname as [[_ <-]|[_ Hname]];
          [eexists _, _, _; split; [reflexivity|]; by repeat constructor|]).
  by rewrite lookup_empty in Hname.
Qed.

(** X16. On the templates of the embedded catalog [IsAvailable] never
    panics (none of their checks is an empty argument vector): it returns a
    boolean, unless it waits for ever for a probe that never exits, which
    it does not under a context that becomes done at some instant. Under a
    context that is already done it returns [false] after the [Run] of the
    first probe alone, without a tick of the clock. *)
Theorem ListEmbedded_IsAvailable assets emb name t host ctx w :
  ListEmbedded assets = Returns emb →
  emb !! name = Some t →
  (∀ p, (IsAvailable host t ctx w).1 ≠ Panics p)
  ∧ (is_Some (context.DoneAt ctx) → ∃ b w', IsAvailable host t ctx w = (Returns b, w'))
  ∧ (context.Done ctx (now w) = true →
     ∃ cmd, IsAvailable host t ctx w
            = (Returns false, {| now := now w; ran := ran w ++ [cmd] |})).
Proof.
  intros Hemb Hname.
  destruct (ListEmbedded_checks _ _ _ _ Hemb Hname) as (prog & args & checks & Hchecks & Hall).
  unfold IsAvailable.
  pose proof (IsAvailable_range_total host ctx (elems (Check t)) w) as Htotal.
  split; [|split].
  - intros p Hp. rewrite Hp in Htotal. destruct Htotal as [_ (check & Hin & Hempty)].
    by destruct (proj1 (Forall_forall _ _) Hall check Hin).
  - intros Hdone.
    destruct (IsAvailable_range host ctx (elems (Check t)) w) as [[b|p|] w'];
      cbn [fst] in Htotal.
    + by exists b, w'.
    + destruct Htotal as [_ (check & Hin & Hempty)].
      by destruct (proj1 (Forall_forall _ _) Hall check Hin).
    + destruct Htotal as [Hctx _]. rewrite Hctx in Hdone. by destruct Hdone.
  - intros Hdone. rewrite Hchecks. simpl.
    unfold internal.SetFlags, run, exec.Run. simpl. rewrite Hdone. by eexists.
Qed.

Lemma ListEmbedded_IsAvailable_witness :
  (∀ p, (IsAvailable stuckHost (default zeroTemplate (exampleEmbedded !! "Nim"))
           (context.WithCancel 0) initial).1 ≠ Panics p)
  ∧ (is_Some (context.DoneAt (context.WithCancel 0)) →
     ∃ b w', IsAvailable stuckHost (default zeroTemplate (exampleEmbedded !! "Nim"))
               (context.WithCancel 0) initial = (Returns b, w'))
  ∧ (context.Done (context.WithCancel 0) (now initial) = true →
     ∃ cmd, IsAvailable stuckHost (default zeroTemplate (exampleEmbedded !! "Nim"))
              (context.WithCancel 0) initial
            = (Returns false, {| now := now initial; ran := ran initial ++ [cmd] |})).
Proof.
  apply (ListEmbedded_IsAvailable exampleAssets exampleEmbedded "Nim"
           (default zeroTemplate (exampleEmbedded !! "Nim")) stuckHost
           (context.WithCancel 0) initial);
    vm_compute; reflexivity.
Defined.

(** The strings of the inline starter kits are UTF-8 text, and their check
    lists and file maps are not empty. *)
Lemma ListEmbedded_inline_valid assets emb name t :
  ListEmbedded assets = Returns emb →
  emb !! name = Some t →
  name ≠ "Python" →
  validStrings t ∧ Check t ≠ Some [] ∧ Files t ≠ Some ∅.
Proof.
  unfold ListEmbedded. destruct (mustEmbed assets "assets/python") as [python|p|]; [|done|done].
  intros [= <-] Hname Hpy.
  apply lookup_insert_Some in Hname as [[<- _]|[_ Hname]]; [done|].
  assert (∀ (checks : list (slice string)),
            forallb (λ check, forallb utf8.ValidString (elems check)) checks = true →
            ∀ check arg, check ∈ checks → arg ∈ elems check → utf8.ValidString arg = true)
    as Hchecks.
  { intros checks Hall check arg Hcheck Harg.
    rewrite forallb_forall in Hall. apply list_elem_of_In in Hcheck, Harg.
    specialize (Hall _ Hcheck). rewrite forallb_forall in Hall. by apply Hall. }
  apply lookup_insert_Some in Hname as [[_ <-]|[_ Hname]].
  { split; [|split; [discriminate|]].
    - split; [vm_compute; reflexivity|]. split; [vm_compute; reflexivity|].
      split; [apply Hchecks; vm_compute; reflexivity|].
      intros k v Hkv. cbn [Files entries] in Hkv.
      repeat (apply lookup_insert_Some in Hkv as [[<- <-]|[_ Hkv]];
              [split; vm_compute; reflexivity|]).
      by rewrite lookup_empty in Hkv.
    - cbn [Files]. intros Heq. apply (inj Some) in Heq.
      by apply insert_non_empty in Heq. }
  apply lookup_insert_Some in Hname as [[_ <-]|[_ Hname]].
  { split; [|split; [discriminate|]].
    - split; [vm_compute; reflexivity|]. split; [vm_compute; reflexivity|].
      split; [apply Hchecks; vm_compute; reflexivity|].
      intros k v Hkv. cbn [Files entries] in Hkv.
      repeat (apply lookup_insert_Some in Hkv as [[<- <-]|[_ Hkv]];
              [split; vm_compute; reflexivity|]).
      by rewrite lookup_empty in Hkv.
    - cbn [Files]. intros Heq. apply (inj Some) in Heq.
      by apply insert_non_empty in Heq. }
  apply lookup_insert_Some in Hname as [[_ <-]|[_ Hname]].
  { split; [|split; [discriminate|]].
    - split; [vm_compute; reflexivity|]. split; [vm_compute; reflexivity|].
      split; [apply Hchecks; vm_compute; reflexivity|].
      intros k v Hkv. cbn [Files entries] in Hkv.
      repeat (apply lookup_insert_Some in Hkv as [[<- <-]|[_ Hkv]];
              [split; vm_compute; reflexivity|]).
      by rewrite lookup_empty in Hkv.
    - cbn [Files]. intros Heq. apply (inj Some) in Heq.
      by apply insert_non_empty in Heq. }
  by rewrite lookup_empty in Hname.
Qed.

(** X17. The inline starter kits of the embedded catalog (Node JS, PHP and
    Nim) can be handed on as descriptors: written by [json.Marshal] and read
    back by [Read], each comes back equal to itself and without an error,
    when its manifest comes back from its own JSON form. *)
Theorem ListEmbedded_descriptor_roundtrip `{!json.Codec types.Manifest}
    assets emb name t disk filename :
  ListEmbedded assets = Returns emb →
  emb !! name = Some t →
  name ≠ "Python" →
  json.UnmarshalJSON (json.MarshalJSON (Manifest t)) types.zero = (Manifest t, None) →
  os.Open disk filename = Ok (json.Text (marshalTemplate t)) →
  Read disk filename = Decoded t None.
Proof.
  intros Hemb Hname Hpy Hm Hopen.
  destruct (ListEmbedded_inline_valid _ _ _ _ Hemb Hname Hpy) as (Hvalid & Hc & Hf).
  unfold Read. rewrite Hopen. unfold json.Decode. cbn [json.UnmarshalJSON Template_codec].
  by rewrite unmarshal_marshal.
Qed.

Lemma ListEmbedded_descriptor_roundtrip_witness :
  Read (H := exampleCodec)
       (descriptorDisk (H := exampleCodec) (default zeroTemplate (exampleEmbedded !! "PHP")))
       "PHP.json"
  = Decoded (default zeroTemplate (exampleEmbedded !! "PHP")) None.
Proof.
  apply (ListEmbedded_descriptor_roundtrip (H := exampleCodec) exampleAssets exampleEmbedded
           "PHP" (default zeroTemplate (exampleEmbedded !! "PHP"))).
  - vm_compute; reflexivity.
  - vm_compute; reflexivity.
  - discriminate.
  - vm_compute; reflexivity.
  - reflexivity.
Defined.

(** X19. A descriptor without checks makes its name available everywhere:
    when the loader holds, for a name, a template whose check list is empty
    or nil, the template [List] returns for that name is reported available
    on every host and in every context, whatever the embedded template of
    the name requires. *)
Theorem List_override_without_checks `{!json.Codec types.Manifest} assets disk dir
    emb ext name t :
  ListEmbedded assets = Returns emb →
  ListDir disk dir = (Some ext, None) →
  ext !! name = Some t →
  elems (Check t) = [] →
  ∃ merged,
    List assets disk dir = Returns (Some merged, None)
    ∧ merged !! name = Some t
    ∧ ∀ host ctx w, IsAvailable host t ctx w = (Returns true, w).
Proof.
  intros Hemb Hdir Hname Hchecks. exists (ext ∪ emb).
  split; [by apply List_returns|]. split; [by apply lookup_union_Some_l|].
  intros host ctx w. unfold IsAvailable. by rewrite Hchecks.
Qed.

Lemma List_override_without_checks_witness :
  (∃ t_emb, exampleEmbedded !! "Python" = Some t_emb ∧ elems (Check t_emb) ≠ [])
  ∧ ∃ merged,
      List (H := exampleCodec) exampleAssets exampleDisk "/etc/templates"
        = Returns (Some merged, None)
      ∧ merged !! "Python" = Some overridePython
      ∧ ∀ host ctx w, IsAvailable host overridePython ctx w = (Returns true, w).
Proof.
  split.
  - exists (default zeroTemplate (exampleEmbedded !! "Python")).
    split; [vm_compute; reflexivity|vm_compute; discriminate].
  - apply (List_override_without_checks (H := exampleCodec) exampleAssets exampleDisk
             "/etc/templates" exampleEmbedded {[ "Python" := overridePython ]} "Python"
             overridePython);
      vm_compute; reflexivity.
Defined.
